(** * disnake-ext-pieces: the Piece registry and its load/unload lifecycle

    A shallow embedding of [src/disnake/ext/pieces/piece.py].  Python
    objects that are shared and mutated (command objects, loops) live in
    stores addressed by reference; a [Piece] and the bot it is loaded on
    are threaded through a state-and-exception monad. *)

From stdpp Require Import base option list sets strings.


(** ** Python values appearing in the model *)

(** Exceptions raised by the modelled code.  [UserError] stands for whatever
    a user-written hook raises; [ReferenceError] is raised by the model on a
    reference that points outside its store (Python has no such state). *)
Inductive Exn :=
| TypeError
| RuntimeError
| LookupError
| AttributeError
| CommandRegistrationError (name : string)
| ReferenceError
| UserError (tag : nat).

(** A check predicate; only its identity matters to the piece. *)
Abbreviation Check := nat (only parsing).

(** A Python function object: identity, [__name__], whether
    [asyncio.iscoroutinefunction] holds of it, the checks stacked on it by
    decorators before registration (in the order the command will hold
    them), and what calling-and-awaiting it does when it is used as a hook. *)
Record Callback := {
  cb_id : nat;
  cb_name : string;
  cb_is_coro : bool;
  cb_checks : list Check;
  cb_raises : option Exn;
}.

(** [dict]: Python's insertion-ordered dictionary with string keys. *)
Definition dict (V : Type) := list (string * V).

Section Dict.
Context {V : Type}.

Fixpoint dict_get (k : string) (d : dict V) : option V :=
  match d with
  | [] => None
  | (k', v) :: d' => if decide (k = k') then Some v else dict_get k d'
  end.

(** [d[k] = v]: an existing key keeps its position, a new key goes last. *)
Fixpoint dict_set (k : string) (v : V) (d : dict V) : dict V :=
  match d with
  | [] => [(k, v)]
  | (k', v') :: d' =>
      if decide (k = k') then (k, v) :: d' else (k', v') :: dict_set k v d'
  end.

(** [d.pop(k, None)], keeping only the dictionary. *)
Fixpoint dict_pop (k : string) (d : dict V) : dict V :=
  match d with
  | [] => []
  | (k', v') :: d' =>
      if decide (k = k') then d' else (k', v') :: dict_pop k d'
  end.

(** [d.setdefault(k, v)], keeping only the dictionary. *)
Definition dict_setdefault (k : string) (v : V) (d : dict V) : dict V :=
  match dict_get k d with
  | Some _ => d
  | None => dict_set k v d
  end.

Definition keys (d : dict V) : list string := d.*1.
Definition values (d : dict V) : list V := d.*2.
End Dict.

(** Values stored in attribute and extras dictionaries. *)
#[local] Unset Elimination Schemes.
Inductive Value :=
| VNone
| VStr (s : string)
| VPiece (id : nat)
| VMetadata (id : nat)
| VDict (d : list (string * Value)).
#[local] Set Elimination Schemes.

(** Python truthiness of a [Value]. *)
Definition truthy (v : Value) : bool :=
  match v with
  | VNone => false
  | VStr s => if decide (s = "") then false else true
  | VPiece _ => true
  | VMetadata _ => true
  | VDict [] => false
  | VDict (_ :: _) => true
  end.

Definition is_none (v : Value) : bool :=
  match v with VNone => true | _ => false end.

(** ** Command objects *)

Inductive Kind := Prefix | Slash | User | Message.

Inductive CommandClass := AnyCommand | AnyGroup | Invokable.

#[global] Instance Kind_eq_dec : EqDecision Kind.
Proof. solve_decision. Defined.

(** Modelled from the spec: the entry shape of section 1 of the spec (a
    unique key, a mutable ordered list of predicates, an extras map);
    disnake's command classes are not part of this repository. *)
Record Command := {
  cmd_kind : Kind;
  cmd_class : CommandClass;
  cmd_name : string;
  cmd_callback : Callback;
  checks : list Check;
  cmd_extras : dict Value;
}.

(** Command objects are addressed by their index in the store. *)
Abbreviation CmdRef := nat (only parsing).

(** The commands the registrars build have no parent. *)
Definition qualified_name (c : Command) : string := cmd_name c.

Definition set_checks (cs : list Check) (c : Command) : Command :=
  {| cmd_kind := cmd_kind c; cmd_class := cmd_class c; cmd_name := cmd_name c;
     cmd_callback := cmd_callback c; checks := cs; cmd_extras := cmd_extras c |}.

(** Modelled from the spec: the constructor call
    [cls(callback, name = ..., **attributes)].  The entry takes the
    [extras] attribute when it is a dict, and the checks the callback
    carries: [cb_checks] is the callback's check list as the constructor
    hands it to the entry.  The list is taken by value.  In disnake the
    entry keeps the callback's own list object, which entries constructed
    from one decorated callback therefore share and which every
    construction reorders; the model does not follow that sharing, nor the
    constructor's validation of the name, and the statements on the command
    registrars below speak of the registries, the extras and the host
    only. *)
Definition construct (k : Kind) (cls : CommandClass) (callback : Callback)
    (name : string) (attributes : dict Value) : Command :=
  {| cmd_kind := k; cmd_class := cls; cmd_name := name;
     cmd_callback := callback; checks := cb_checks callback;
     cmd_extras := match dict_get "extras" attributes with
                   | Some (VDict e) => e
                   | _ => []
                   end |}.

(** ** Loops *)

Inductive BeforeLoop :=
| UserBefore (cb : Callback)
| WaitUntilReady (piece : nat).

(** Modelled from the spec: a background-task handle with start/stop
    operations and an optional ready-guard (disnake's [tasks.Loop]).
    [running] tells whether the loop has a task that is not done, which is
    what [is_running()] answers; [cancel_requested] tells whether that task
    has been asked to cancel.  Nothing here lets a task finish: that takes a
    turn of the event loop, which none of the calls modelled waits for. *)
Record Loop := {
  loop_coro : Callback;
  _before_loop : option BeforeLoop;
  running : bool;
  cancel_requested : bool;
}.

Abbreviation LoopRef := nat (only parsing).

Definition set_before_loop (b : option BeforeLoop) (l : Loop) : Loop :=
  {| loop_coro := loop_coro l; _before_loop := b; running := running l;
     cancel_requested := cancel_requested l |}.

Definition set_running (b : bool) (l : Loop) : Loop :=
  {| loop_coro := loop_coro l; _before_loop := _before_loop l; running := b;
     cancel_requested := cancel_requested l |}.

Definition set_cancel_requested (b : bool) (l : Loop) : Loop :=
  {| loop_coro := loop_coro l; _before_loop := _before_loop l;
     running := running l; cancel_requested := b |}.

(** ** The piece *)

Record PieceMetadata := {
  name : string;
  extras : dict Value;
}.

(** The slots of [Piece], [logger] apart.  [__init__] assigns every slot but
    [_global_command_once_checks]; an unassigned slot is [None] here and
    reading it raises [AttributeError]. *)
Record Piece := {
  piece_id : nat;
  metadata : PieceMetadata;
  _commands : dict CmdRef;
  _message_commands : dict CmdRef;
  _slash_commands : dict CmdRef;
  _user_commands : dict CmdRef;
  _command_checks : list Check;
  _slash_command_checks : list Check;
  _message_command_checks : list Check;
  _user_command_checks : list Check;
  _global_command_checks : list Check;
  _global_command_once_checks : option (list Check);
  _global_application_command_checks : list Check;
  _global_slash_command_checks : list Check;
  _global_message_command_checks : list Check;
  _global_user_command_checks : list Check;
  _listeners : dict (list Callback);
  _loops : list LoopRef;
  _pre_load_hooks : list Callback;
  _post_load_hooks : list Callback;
  _pre_unload_hooks : list Callback;
  _post_unload_hooks : list Callback;
  _bot : option nat;
}.

(** [Piece.__init__(name = name, **extras)], for the object identity [id]
    and a non-empty [name]. *)
Definition init (id : nat) (nm : string) (ex : dict Value) : Piece :=
  {| piece_id := id;
     metadata := {| name := nm; extras := ex |};
     _commands := []; _message_commands := [];
     _slash_commands := []; _user_commands := [];
     _command_checks := []; _slash_command_checks := [];
     _message_command_checks := []; _user_command_checks := [];
     _global_command_checks := [];
     _global_command_once_checks := None;
     _global_application_command_checks := [];
     _global_slash_command_checks := [];
     _global_message_command_checks := [];
     _global_user_command_checks := [];
     _listeners := []; _loops := [];
     _pre_load_hooks := []; _post_load_hooks := [];
     _pre_unload_hooks := []; _post_unload_hooks := [];
     _bot := None |}.

(** Attribute assignment [self.f = v], one function per slot that the
    modelled methods assign. *)
Definition set_commands v (p : Piece) : Piece :=
  {| piece_id := piece_id p; metadata := metadata p; _commands := v;
     _message_commands := _message_commands p;
     _slash_commands := _slash_commands p;
     _user_commands := _user_commands p;
     _command_checks := _command_checks p;
     _slash_command_checks := _slash_command_checks p;
     _message_command_checks := _message_command_checks p;
     _user_command_checks := _user_command_checks p;
     _global_command_checks := _global_command_checks p;
     _global_command_once_checks := _global_command_once_checks p;
     _global_application_command_checks := _global_application_command_checks p;
     _global_slash_command_checks := _global_slash_command_checks p;
     _global_message_command_checks := _global_message_command_checks p;
     _global_user_command_checks := _global_user_command_checks p;
     _listeners := _listeners p; _loops := _loops p;
     _pre_load_hooks := _pre_load_hooks p;
     _post_load_hooks := _post_load_hooks p;
     _pre_unload_hooks := _pre_unload_hooks p;
     _post_unload_hooks := _post_unload_hooks p; _bot := _bot p |}.
Definition set_message_commands v (p : Piece) : Piece :=
  {| piece_id := piece_id p; metadata := metadata p;
     _commands := _commands p; _message_commands := v;
     _slash_commands := _slash_commands p;
     _user_commands := _user_commands p;
     _command_checks := _command_checks p;
     _slash_command_checks := _slash_command_checks p;
     _message_command_checks := _message_command_checks p;
     _user_command_checks := _user_command_checks p;
     _global_command_checks := _global_command_checks p;
     _global_command_once_checks := _global_command_once_checks p;
     _global_application_command_checks := _global_application_command_checks p;
     _global_slash_command_checks := _global_slash_command_checks p;
     _global_message_command_checks := _global_message_command_checks p;
     _global_user_command_checks := _global_user_command_checks p;
     _listeners := _listeners p; _loops := _loops p;
     _pre_load_hooks := _pre_load_hooks p;
     _post_load_hooks := _post_load_hooks p;
     _pre_unload_hooks := _pre_unload_hooks p;
     _post_unload_hooks := _post_unload_hooks p; _bot := _bot p |}.
Definition set_slash_commands v (p : Piece) : Piece :=
  {| piece_id := piece_id p; metadata := metadata p;
     _commands := _commands p; _message_commands := _message_commands p;
     _slash_commands := v; _user_commands := _user_commands p;
     _command_checks := _command_checks p;
     _slash_command_checks := _slash_command_checks p;
     _message_command_checks := _message_command_checks p;
     _user_command_checks := _user_command_checks p;
     _global_command_checks := _global_command_checks p;
     _global_command_once_checks := _global_command_once_checks p;
     _global_application_command_checks := _global_application_command_checks p;
     _global_slash_command_checks := _global_slash_command_checks p;
     _global_message_command_checks := _global_message_command_checks p;
     _global_user_command_checks := _global_user_command_checks p;
     _listeners := _listeners p; _loops := _loops p;
     _pre_load_hooks := _pre_load_hooks p;
     _post_load_hooks := _post_load_hooks p;
     _pre_unload_hooks := _pre_unload_hooks p;
     _post_unload_hooks := _post_unload_hooks p; _bot := _bot p |}.
Definition set_user_commands v (p : Piece) : Piece :=
  {| piece_id := piece_id p; metadata := metadata p;
     _commands := _commands p; _message_commands := _message_commands p;
     _slash_commands := _slash_commands p; _user_commands := v;
     _command_checks := _command_checks p;
     _slash_command_checks := _slash_command_checks p;
     _message_command_checks := _message_command_checks p;
     _user_command_checks := _user_command_checks p;
     _global_command_checks := _global_command_checks p;
     _global_command_once_checks := _global_command_once_checks p;
     _global_application_command_checks := _global_application_command_checks p;
     _global_slash_command_checks := _global_slash_command_checks p;
     _global_message_command_checks := _global_message_command_checks p;
     _global_user_command_checks := _global_user_command_checks p;
     _listeners := _listeners p; _loops := _loops p;
     _pre_load_hooks := _pre_load_hooks p;
     _post_load_hooks := _post_load_hooks p;
     _pre_unload_hooks := _pre_unload_hooks p;
     _post_unload_hooks := _post_unload_hooks p; _bot := _bot p |}.
Definition set_command_checks v (p : Piece) : Piece :=
  {| piece_id := piece_id p; metadata := metadata p;
     _commands := _commands p; _message_commands := _message_commands p;
     _slash_commands := _slash_commands p;
     _user_commands := _user_commands p; _command_checks := v;
     _slash_command_checks := _slash_command_checks p;
     _message_command_checks := _message_command_checks p;
     _user_command_checks := _user_command_checks p;
     _global_command_checks := _global_command_checks p;
     _global_command_once_checks := _global_command_once_checks p;
     _global_application_command_checks := _global_application_command_checks p;
     _global_slash_command_checks := _global_slash_command_checks p;
     _global_message_command_checks := _global_message_command_checks p;
     _global_user_command_checks := _global_user_command_checks p;
     _listeners := _listeners p; _loops := _loops p;
     _pre_load_hooks := _pre_load_hooks p;
     _post_load_hooks := _post_load_hooks p;
     _pre_unload_hooks := _pre_unload_hooks p;
     _post_unload_hooks := _post_unload_hooks p; _bot := _bot p |}.
Definition set_slash_command_checks v (p : Piece) : Piece :=
  {| piece_id := piece_id p; metadata := metadata p;
     _commands := _commands p; _message_commands := _message_commands p;
     _slash_commands := _slash_commands p;
     _user_commands := _user_commands p;
     _command_checks := _command_checks p; _slash_command_checks := v;
     _message_command_checks := _message_command_checks p;
     _user_command_checks := _user_command_checks p;
     _global_command_checks := _global_command_checks p;
     _global_command_once_checks := _global_command_once_checks p;
     _global_application_command_checks := _global_application_command_checks p;
     _global_slash_command_checks := _global_slash_command_checks p;
     _global_message_command_checks := _global_message_command_checks p;
     _global_user_command_checks := _global_user_command_checks p;
     _listeners := _listeners p; _loops := _loops p;
     _pre_load_hooks := _pre_load_hooks p;
     _post_load_hooks := _post_load_hooks p;
     _pre_unload_hooks := _pre_unload_hooks p;
     _post_unload_hooks := _post_unload_hooks p; _bot := _bot p |}.
Definition set_message_command_checks v (p : Piece) : Piece :=
  {| piece_id := piece_id p; metadata := metadata p;
     _commands := _commands p; _message_commands := _message_commands p;
     _slash_commands := _slash_commands p;
     _user_commands := _user_commands p;
     _command_checks := _command_checks p;
     _slash_command_checks := _slash_command_checks p;
     _message_command_checks := v;
     _user_command_checks := _user_command_checks p;
     _global_command_checks := _global_command_checks p;
     _global_command_once_checks := _global_command_once_checks p;
     _global_application_command_checks := _global_application_command_checks p;
     _global_slash_command_checks := _global_slash_command_checks p;
     _global_message_command_checks := _global_message_command_checks p;
     _global_user_command_checks := _global_user_command_checks p;
     _listeners := _listeners p; _loops := _loops p;
     _pre_load_hooks := _pre_load_hooks p;
     _post_load_hooks := _post_load_hooks p;
     _pre_unload_hooks := _pre_unload_hooks p;
     _post_unload_hooks := _post_unload_hooks p; _bot := _bot p |}.
Definition set_user_command_checks v (p : Piece) : Piece :=
  {| piece_id := piece_id p; metadata := metadata p;
     _commands := _commands p; _message_commands := _message_commands p;
     _slash_commands := _slash_commands p;
     _user_commands := _user_commands p;
     _command_checks := _command_checks p;
     _slash_command_checks := _slash_command_checks p;
     _message_command_checks := _message_command_checks p;
     _user_command_checks := v;
     _global_command_checks := _global_command_checks p;
     _global_command_once_checks := _global_command_once_checks p;
     _global_application_command_checks := _global_application_command_checks p;
     _global_slash_command_checks := _global_slash_command_checks p;
     _global_message_command_checks := _global_message_command_checks p;
     _global_user_command_checks := _global_user_command_checks p;
     _listeners := _listeners p; _loops := _loops p;
     _pre_load_hooks := _pre_load_hooks p;
     _post_load_hooks := _post_load_hooks p;
     _pre_unload_hooks := _pre_unload_hooks p;
     _post_unload_hooks := _post_unload_hooks p; _bot := _bot p |}.
Definition set_global_command_checks v (p : Piece) : Piece :=
  {| piece_id := piece_id p; metadata := metadata p;
     _commands := _commands p; _message_commands := _message_commands p;
     _slash_commands := _slash_commands p;
     _user_commands := _user_commands p;
     _command_checks := _command_checks p;
     _slash_command_checks := _slash_command_checks p;
     _message_command_checks := _message_command_checks p;
     _user_command_checks := _user_command_checks p;
     _global_command_checks := v;
     _global_command_once_checks := _global_command_once_checks p;
     _global_application_command_checks := _global_application_command_checks p;
     _global_slash_command_checks := _global_slash_command_checks p;
     _global_message_command_checks := _global_message_command_checks p;
     _global_user_command_checks := _global_user_command_checks p;
     _listeners := _listeners p; _loops := _loops p;
     _pre_load_hooks := _pre_load_hooks p;
     _post_load_hooks := _post_load_hooks p;
     _pre_unload_hooks := _pre_unload_hooks p;
     _post_unload_hooks := _post_unload_hooks p; _bot := _bot p |}.
Definition set_global_command_once_checks v (p : Piece) : Piece :=
  {| piece_id := piece_id p; metadata := metadata p;
     _commands := _commands p; _message_commands := _message_commands p;
     _slash_commands := _slash_commands p;
     _user_commands := _user_commands p;
     _command_checks := _command_checks p;
     _slash_command_checks := _slash_command_checks p;
     _message_command_checks := _message_command_checks p;
     _user_command_checks := _user_command_checks p;
     _global_command_checks := _global_command_checks p;
     _global_command_once_checks := v;
     _global_application_command_checks := _global_application_command_checks p;
     _global_slash_command_checks := _global_slash_command_checks p;
     _global_message_command_checks := _global_message_command_checks p;
     _global_user_command_checks := _global_user_command_checks p;
     _listeners := _listeners p; _loops := _loops p;
     _pre_load_hooks := _pre_load_hooks p;
     _post_load_hooks := _post_load_hooks p;
     _pre_unload_hooks := _pre_unload_hooks p;
     _post_unload_hooks := _post_unload_hooks p; _bot := _bot p |}.
Definition set_global_application_command_checks v (p : Piece) : Piece :=
  {| piece_id := piece_id p; metadata := metadata p;
     _commands := _commands p; _message_commands := _message_commands p;
     _slash_commands := _slash_commands p;
     _user_commands := _user_commands p;
     _command_checks := _command_checks p;
     _slash_command_checks := _slash_command_checks p;
     _message_command_checks := _message_command_checks p;
     _user_command_checks := _user_command_checks p;
     _global_command_checks := _global_command_checks p;
     _global_command_once_checks := _global_command_once_checks p;
     _global_application_command_checks := v;
     _global_slash_command_checks := _global_slash_command_checks p;
     _global_message_command_checks := _global_message_command_checks p;
     _global_user_command_checks := _global_user_command_checks p;
     _listeners := _listeners p; _loops := _loops p;
     _pre_load_hooks := _pre_load_hooks p;
     _post_load_hooks := _post_load_hooks p;
     _pre_unload_hooks := _pre_unload_hooks p;
     _post_unload_hooks := _post_unload_hooks p; _bot := _bot p |}.
Definition set_global_slash_command_checks v (p : Piece) : Piece :=
  {| piece_id := piece_id p; metadata := metadata p;
     _commands := _commands p; _message_commands := _message_commands p;
     _slash_commands := _slash_commands p;
     _user_commands := _user_commands p;
     _command_checks := _command_checks p;
     _slash_command_checks := _slash_command_checks p;
     _message_command_checks := _message_command_checks p;
     _user_command_checks := _user_command_checks p;
     _global_command_checks := _global_command_checks p;
     _global_command_once_checks := _global_command_once_checks p;
     _global_application_command_checks := _global_application_command_checks p;
     _global_slash_command_checks := v;
     _global_message_command_checks := _global_message_command_checks p;
     _global_user_command_checks := _global_user_command_checks p;
     _listeners := _listeners p; _loops := _loops p;
     _pre_load_hooks := _pre_load_hooks p;
     _post_load_hooks := _post_load_hooks p;
     _pre_unload_hooks := _pre_unload_hooks p;
     _post_unload_hooks := _post_unload_hooks p; _bot := _bot p |}.
Definition set_global_message_command_checks v (p : Piece) : Piece :=
  {| piece_id := piece_id p; metadata := metadata p;
     _commands := _commands p; _message_commands := _message_commands p;
     _slash_commands := _slash_commands p;
     _user_commands := _user_commands p;
     _command_checks := _command_checks p;
     _slash_command_checks := _slash_command_checks p;
     _message_command_checks := _message_command_checks p;
     _user_command_checks := _user_command_checks p;
     _global_command_checks := _global_command_checks p;
     _global_command_once_checks := _global_command_once_checks p;
     _global_application_command_checks := _global_application_command_checks p;
     _global_slash_command_checks := _global_slash_command_checks p;
     _global_message_command_checks := v;
     _global_user_command_checks := _global_user_command_checks p;
     _listeners := _listeners p; _loops := _loops p;
     _pre_load_hooks := _pre_load_hooks p;
     _post_load_hooks := _post_load_hooks p;
     _pre_unload_hooks := _pre_unload_hooks p;
     _post_unload_hooks := _post_unload_hooks p; _bot := _bot p |}.
Definition set_global_user_command_checks v (p : Piece) : Piece :=
  {| piece_id := piece_id p; metadata := metadata p;
     _commands := _commands p; _message_commands := _message_commands p;
     _slash_commands := _slash_commands p;
     _user_commands := _user_commands p;
     _command_checks := _command_checks p;
     _slash_command_checks := _slash_command_checks p;
     _message_command_checks := _message_command_checks p;
     _user_command_checks := _user_command_checks p;
     _global_command_checks := _global_command_checks p;
     _global_command_once_checks := _global_command_once_checks p;
     _global_application_command_checks := _global_application_command_checks p;
     _global_slash_command_checks := _global_slash_command_checks p;
     _global_message_command_checks := _global_message_command_checks p;
     _global_user_command_checks := v; _listeners := _listeners p;
     _loops := _loops p; _pre_load_hooks := _pre_load_hooks p;
     _post_load_hooks := _post_load_hooks p;
     _pre_unload_hooks := _pre_unload_hooks p;
     _post_unload_hooks := _post_unload_hooks p; _bot := _bot p |}.
Definition set_listeners v (p : Piece) : Piece :=
  {| piece_id := piece_id p; metadata := metadata p;
     _commands := _commands p; _message_commands := _message_commands p;
     _slash_commands := _slash_commands p;
     _user_commands := _user_commands p;
     _command_checks := _command_checks p;
     _slash_command_checks := _slash_command_checks p;
     _message_command_checks := _message_command_checks p;
     _user_command_checks := _user_command_checks p;
     _global_command_checks := _global_command_checks p;
     _global_command_once_checks := _global_command_once_checks p;
     _global_application_command_checks := _global_application_command_checks p;
     _global_slash_command_checks := _global_slash_command_checks p;
     _global_message_command_checks := _global_message_command_checks p;
     _global_user_command_checks := _global_user_command_checks p;
     _listeners := v; _loops := _loops p;
     _pre_load_hooks := _pre_load_hooks p;
     _post_load_hooks := _post_load_hooks p;
     _pre_unload_hooks := _pre_unload_hooks p;
     _post_unload_hooks := _post_unload_hooks p; _bot := _bot p |}.
Definition set_loops v (p : Piece) : Piece :=
  {| piece_id := piece_id p; metadata := metadata p;
     _commands := _commands p; _message_commands := _message_commands p;
     _slash_commands := _slash_commands p;
     _user_commands := _user_commands p;
     _command_checks := _command_checks p;
     _slash_command_checks := _slash_command_checks p;
     _message_command_checks := _message_command_checks p;
     _user_command_checks := _user_command_checks p;
     _global_command_checks := _global_command_checks p;
     _global_command_once_checks := _global_command_once_checks p;
     _global_application_command_checks := _global_application_command_checks p;
     _global_slash_command_checks := _global_slash_command_checks p;
     _global_message_command_checks := _global_message_command_checks p;
     _global_user_command_checks := _global_user_command_checks p;
     _listeners := _listeners p; _loops := v;
     _pre_load_hooks := _pre_load_hooks p;
     _post_load_hooks := _post_load_hooks p;
     _pre_unload_hooks := _pre_unload_hooks p;
     _post_unload_hooks := _post_unload_hooks p; _bot := _bot p |}.
Definition set_pre_load_hooks v (p : Piece) : Piece :=
  {| piece_id := piece_id p; metadata := metadata p;
     _commands := _commands p; _message_commands := _message_commands p;
     _slash_commands := _slash_commands p;
     _user_commands := _user_commands p;
     _command_checks := _command_checks p;
     _slash_command_checks := _slash_command_checks p;
     _message_command_checks := _message_command_checks p;
     _user_command_checks := _user_command_checks p;
     _global_command_checks := _global_command_checks p;
     _global_command_once_checks := _global_command_once_checks p;
     _global_application_command_checks := _global_application_command_checks p;
     _global_slash_command_checks := _global_slash_command_checks p;
     _global_message_command_checks := _global_message_command_checks p;
     _global_user_command_checks := _global_user_command_checks p;
     _listeners := _listeners p; _loops := _loops p; _pre_load_hooks := v;
     _post_load_hooks := _post_load_hooks p;
     _pre_unload_hooks := _pre_unload_hooks p;
     _post_unload_hooks := _post_unload_hooks p; _bot := _bot p |}.
Definition set_post_load_hooks v (p : Piece) : Piece :=
  {| piece_id := piece_id p; metadata := metadata p;
     _commands := _commands p; _message_commands := _message_commands p;
     _slash_commands := _slash_commands p;
     _user_commands := _user_commands p;
     _command_checks := _command_checks p;
     _slash_command_checks := _slash_command_checks p;
     _message_command_checks := _message_command_checks p;
     _user_command_checks := _user_command_checks p;
     _global_command_checks := _global_command_checks p;
     _global_command_once_checks := _global_command_once_checks p;
     _global_application_command_checks := _global_application_command_checks p;
     _global_slash_command_checks := _global_slash_command_checks p;
     _global_message_command_checks := _global_message_command_checks p;
     _global_user_command_checks := _global_user_command_checks p;
     _listeners := _listeners p; _loops := _loops p;
     _pre_load_hooks := _pre_load_hooks p; _post_load_hooks := v;
     _pre_unload_hooks := _pre_unload_hooks p;
     _post_unload_hooks := _post_unload_hooks p; _bot := _bot p |}.
Definition set_pre_unload_hooks v (p : Piece) : Piece :=
  {| piece_id := piece_id p; metadata := metadata p;
     _commands := _commands p; _message_commands := _message_commands p;
     _slash_commands := _slash_commands p;
     _user_commands := _user_commands p;
     _command_checks := _command_checks p;
     _slash_command_checks := _slash_command_checks p;
     _message_command_checks := _message_command_checks p;
     _user_command_checks := _user_command_checks p;
     _global_command_checks := _global_command_checks p;
     _global_command_once_checks := _global_command_once_checks p;
     _global_application_command_checks := _global_application_command_checks p;
     _global_slash_command_checks := _global_slash_command_checks p;
     _global_message_command_checks := _global_message_command_checks p;
     _global_user_command_checks := _global_user_command_checks p;
     _listeners := _listeners p; _loops := _loops p;
     _pre_load_hooks := _pre_load_hooks p;
     _post_load_hooks := _post_load_hooks p; _pre_unload_hooks := v;
     _post_unload_hooks := _post_unload_hooks p; _bot := _bot p |}.
Definition set_post_unload_hooks v (p : Piece) : Piece :=
  {| piece_id := piece_id p; metadata := metadata p;
     _commands := _commands p; _message_commands := _message_commands p;
     _slash_commands := _slash_commands p;
     _user_commands := _user_commands p;
     _command_checks := _command_checks p;
     _slash_command_checks := _slash_command_checks p;
     _message_command_checks := _message_command_checks p;
     _user_command_checks := _user_command_checks p;
     _global_command_checks := _global_command_checks p;
     _global_command_once_checks := _global_command_once_checks p;
     _global_application_command_checks := _global_application_command_checks p;
     _global_slash_command_checks := _global_slash_command_checks p;
     _global_message_command_checks := _global_message_command_checks p;
     _global_user_command_checks := _global_user_command_checks p;
     _listeners := _listeners p; _loops := _loops p;
     _pre_load_hooks := _pre_load_hooks p;
     _post_load_hooks := _post_load_hooks p;
     _pre_unload_hooks := _pre_unload_hooks p; _post_unload_hooks := v;
     _bot := _bot p |}.
Definition set_bot v (p : Piece) : Piece :=
  {| piece_id := piece_id p; metadata := metadata p;
     _commands := _commands p; _message_commands := _message_commands p;
     _slash_commands := _slash_commands p;
     _user_commands := _user_commands p;
     _command_checks := _command_checks p;
     _slash_command_checks := _slash_command_checks p;
     _message_command_checks := _message_command_checks p;
     _user_command_checks := _user_command_checks p;
     _global_command_checks := _global_command_checks p;
     _global_command_once_checks := _global_command_once_checks p;
     _global_application_command_checks := _global_application_command_checks p;
     _global_slash_command_checks := _global_slash_command_checks p;
     _global_message_command_checks := _global_message_command_checks p;
     _global_user_command_checks := _global_user_command_checks p;
     _listeners := _listeners p; _loops := _loops p;
     _pre_load_hooks := _pre_load_hooks p;
     _post_load_hooks := _post_load_hooks p;
     _pre_unload_hooks := _pre_unload_hooks p;
     _post_unload_hooks := _post_unload_hooks p; _bot := v |}.

(** ** The host

    Modelled from the spec: the host capability set of section 6 of the
    spec (add/remove a command per command kind, add/remove a check per
    scope, add/remove a listener, schedule a command sync).  The bot classes
    are disnake's and not part of this repository; the model keeps one
    name-keyed table per command kind, one ordered check list per scope and
    the listener registrations in order.  Adding a command under a name
    that is taken is rejected (section 4.2: "host rejects a duplicate
    command name").  Where the spec is silent the model does what disnake
    does: a listener that is not a coroutine function is rejected; removing
    a command, check or listener takes out the named entry or the first
    occurrence and does nothing when there is none. *)
Record Host := {
  host_id : nat;
  is_bot_base : bool;
  all_commands : dict CmdRef;
  all_slash_commands : dict CmdRef;
  all_user_commands : dict CmdRef;
  all_message_commands : dict CmdRef;
  bot_checks : list Check;
  bot_check_once : list Check;
  bot_slash_command_checks : list Check;
  bot_user_command_checks : list Check;
  bot_message_command_checks : list Check;
  extra_events : list (string * Callback);
  sync_requests : nat;
}.

(** The check lists of a host, by scope. *)
Inductive Scope :=
| ScopePrefix | ScopePrefixOnce | ScopeSlash | ScopeUser | ScopeMessage.

Definition host_table (k : Kind) (h : Host) : dict CmdRef :=
  match k with
  | Prefix => all_commands h
  | Slash => all_slash_commands h
  | User => all_user_commands h
  | Message => all_message_commands h
  end.

Definition set_host_table (k : Kind) (v : dict CmdRef) (h : Host) : Host :=
  match k with
  | Prefix =>
      {| host_id := host_id h; is_bot_base := is_bot_base h;
         all_commands := v; all_slash_commands := all_slash_commands h;
         all_user_commands := all_user_commands h;
         all_message_commands := all_message_commands h;
         bot_checks := bot_checks h; bot_check_once := bot_check_once h;
         bot_slash_command_checks := bot_slash_command_checks h;
         bot_user_command_checks := bot_user_command_checks h;
         bot_message_command_checks := bot_message_command_checks h;
         extra_events := extra_events h; sync_requests := sync_requests h |}
  | Slash =>
      {| host_id := host_id h; is_bot_base := is_bot_base h;
         all_commands := all_commands h; all_slash_commands := v;
         all_user_commands := all_user_commands h;
         all_message_commands := all_message_commands h;
         bot_checks := bot_checks h; bot_check_once := bot_check_once h;
         bot_slash_command_checks := bot_slash_command_checks h;
         bot_user_command_checks := bot_user_command_checks h;
         bot_message_command_checks := bot_message_command_checks h;
         extra_events := extra_events h; sync_requests := sync_requests h |}
  | User =>
      {| host_id := host_id h; is_bot_base := is_bot_base h;
         all_commands := all_commands h;
         all_slash_commands := all_slash_commands h; all_user_commands := v;
         all_message_commands := all_message_commands h;
         bot_checks := bot_checks h; bot_check_once := bot_check_once h;
         bot_slash_command_checks := bot_slash_command_checks h;
         bot_user_command_checks := bot_user_command_checks h;
         bot_message_command_checks := bot_message_command_checks h;
         extra_events := extra_events h; sync_requests := sync_requests h |}
  | Message =>
      {| host_id := host_id h; is_bot_base := is_bot_base h;
         all_commands := all_commands h;
         all_slash_commands := all_slash_commands h;
         all_user_commands := all_user_commands h; all_message_commands := v;
         bot_checks := bot_checks h; bot_check_once := bot_check_once h;
         bot_slash_command_checks := bot_slash_command_checks h;
         bot_user_command_checks := bot_user_command_checks h;
         bot_message_command_checks := bot_message_command_checks h;
         extra_events := extra_events h; sync_requests := sync_requests h |}
  end.

Definition host_checks (s : Scope) (h : Host) : list Check :=
  match s with
  | ScopePrefix => bot_checks h
  | ScopePrefixOnce => bot_check_once h
  | ScopeSlash => bot_slash_command_checks h
  | ScopeUser => bot_user_command_checks h
  | ScopeMessage => bot_message_command_checks h
  end.

Definition set_host_checks (s : Scope) (v : list Check) (h : Host) : Host :=
  match s with
  | ScopePrefix =>
      {| host_id := host_id h; is_bot_base := is_bot_base h;
         all_commands := all_commands h;
         all_slash_commands := all_slash_commands h;
         all_user_commands := all_user_commands h;
         all_message_commands := all_message_commands h; bot_checks := v;
         bot_check_once := bot_check_once h;
         bot_slash_command_checks := bot_slash_command_checks h;
         bot_user_command_checks := bot_user_command_checks h;
         bot_message_command_checks := bot_message_command_checks h;
         extra_events := extra_events h; sync_requests := sync_requests h |}
  | ScopePrefixOnce =>
      {| host_id := host_id h; is_bot_base := is_bot_base h;
         all_commands := all_commands h;
         all_slash_commands := all_slash_commands h;
         all_user_commands := all_user_commands h;
         all_message_commands := all_message_commands h;
         bot_checks := bot_checks h; bot_check_once := v;
         bot_slash_command_checks := bot_slash_command_checks h;
         bot_user_command_checks := bot_user_command_checks h;
         bot_message_command_checks := bot_message_command_checks h;
         extra_events := extra_events h; sync_requests := sync_requests h |}
  | ScopeSlash =>
      {| host_id := host_id h; is_bot_base := is_bot_base h;
         all_commands := all_commands h;
         all_slash_commands := all_slash_commands h;
         all_user_commands := all_user_commands h;
         all_message_commands := all_message_commands h;
         bot_checks := bot_checks h; bot_check_once := bot_check_once h;
         bot_slash_command_checks := v;
         bot_user_command_checks := bot_user_command_checks h;
         bot_message_command_checks := bot_message_command_checks h;
         extra_events := extra_events h; sync_requests := sync_requests h |}
  | ScopeUser =>
      {| host_id := host_id h; is_bot_base := is_bot_base h;
         all_commands := all_commands h;
         all_slash_commands := all_slash_commands h;
         all_user_commands := all_user_commands h;
         all_message_commands := all_message_commands h;
         bot_checks := bot_checks h; bot_check_once := bot_check_once h;
         bot_slash_command_checks := bot_slash_command_checks h;
         bot_user_command_checks := v;
         bot_message_command_checks := bot_message_command_checks h;
         extra_events := extra_events h; sync_requests := sync_requests h |}
  | ScopeMessage =>
      {| host_id := host_id h; is_bot_base := is_bot_base h;
         all_commands := all_commands h;
         all_slash_commands := all_slash_commands h;
         all_user_commands := all_user_commands h;
         all_message_commands := all_message_commands h;
         bot_checks := bot_checks h; bot_check_once := bot_check_once h;
         bot_slash_command_checks := bot_slash_command_checks h;
         bot_user_command_checks := bot_user_command_checks h;
         bot_message_command_checks := v; extra_events := extra_events h;
         sync_requests := sync_requests h |}
  end.

Definition set_extra_events (v : list (string * Callback)) (h : Host) : Host :=
  {| host_id := host_id h; is_bot_base := is_bot_base h;
     all_commands := all_commands h;
     all_slash_commands := all_slash_commands h;
     all_user_commands := all_user_commands h;
     all_message_commands := all_message_commands h;
     bot_checks := bot_checks h; bot_check_once := bot_check_once h;
     bot_slash_command_checks := bot_slash_command_checks h;
     bot_user_command_checks := bot_user_command_checks h;
     bot_message_command_checks := bot_message_command_checks h;
     extra_events := v; sync_requests := sync_requests h |}.

Definition set_sync_requests (v : nat) (h : Host) : Host :=
  {| host_id := host_id h; is_bot_base := is_bot_base h;
     all_commands := all_commands h;
     all_slash_commands := all_slash_commands h;
     all_user_commands := all_user_commands h;
     all_message_commands := all_message_commands h;
     bot_checks := bot_checks h; bot_check_once := bot_check_once h;
     bot_slash_command_checks := bot_slash_command_checks h;
     bot_user_command_checks := bot_user_command_checks h;
     bot_message_command_checks := bot_message_command_checks h;
     extra_events := extra_events h; sync_requests := v |}.

(** [l.remove(x)] with the [ValueError] of a missing element swallowed, as
    the host's remove operations do: the first occurrence goes. *)
Fixpoint remove_first `{EqDecision A} (x : A) (l : list A) : list A :=
  match l with
  | [] => []
  | y :: l' => if decide (x = y) then l' else y :: remove_first x l'
  end.

#[global] Instance Exn_eq_dec : EqDecision Exn.
Proof. solve_decision. Defined.

#[global] Instance Callback_eq_dec : EqDecision Callback.
Proof. solve_decision. Defined.

Definition add_command (k : Kind) (name : string) (r : CmdRef) (h : Host)
    : Exn + Host :=
  match dict_get name (host_table k h) with
  | Some _ => inl (CommandRegistrationError name)
  | None => inr (set_host_table k (dict_set name r (host_table k h)) h)
  end.

Definition remove_command (k : Kind) (name : string) (h : Host) : Host :=
  set_host_table k (dict_pop name (host_table k h)) h.

Definition add_check (s : Scope) (check : Check) (h : Host) : Host :=
  set_host_checks s (host_checks s h ++ [check]) h.

Definition remove_check (s : Scope) (check : Check) (h : Host) : Host :=
  set_host_checks s (remove_first check (host_checks s h)) h.

Definition when (b : bool) (f : Host -> Host) (h : Host) : Host :=
  if b then f h else h.

(** [bot.application_command_check(slash_commands, user_commands,
    message_commands)(check)] and [bot.remove_app_command_check]. *)
Definition add_app_command_check (check : Check)
    (slash_commands user_commands message_commands : bool) (h : Host) : Host :=
  when user_commands (add_check ScopeUser check)
    (when slash_commands (add_check ScopeSlash check)
       (when message_commands (add_check ScopeMessage check) h)).

Definition remove_app_command_check (check : Check)
    (slash_commands user_commands message_commands : bool) (h : Host) : Host :=
  when user_commands (remove_check ScopeUser check)
    (when slash_commands (remove_check ScopeSlash check)
       (when message_commands (remove_check ScopeMessage check) h)).

Definition add_listener (func : Callback) (name : string) (h : Host)
    : Exn + Host :=
  if cb_is_coro func
  then inr (set_extra_events (extra_events h ++ [(name, func)]) h)
  else inl TypeError.

Definition remove_listener (func : Callback) (name : string) (h : Host) : Host :=
  set_extra_events (remove_first (name, func) (extra_events h)) h.

Definition _schedule_delayed_command_sync (h : Host) : Host :=
  set_sync_requests (S (sync_requests h)) h.

(** ** The world and the monad *)

Record World := {
  w_commands : list Command;
  w_loops : list Loop;
  w_self : Piece;
  w_bot : Host;
}.

Definition with_commands (v : list Command) (w : World) : World :=
  {| w_commands := v; w_loops := w_loops w; w_self := w_self w;
     w_bot := w_bot w |}.
Definition with_loops (v : list Loop) (w : World) : World :=
  {| w_commands := w_commands w; w_loops := v; w_self := w_self w;
     w_bot := w_bot w |}.
Definition with_self (v : Piece) (w : World) : World :=
  {| w_commands := w_commands w; w_loops := w_loops w; w_self := v;
     w_bot := w_bot w |}.
Definition with_bot (v : Host) (w : World) : World :=
  {| w_commands := w_commands w; w_loops := w_loops w; w_self := w_self w;
     w_bot := v |}.

(** A call either returns a value or raises; the world it leaves behind is
    kept in both cases, since nothing is rolled back. *)
Inductive Outcome (A : Type) :=
| Ok (a : A) (w : World)
| Raise (e : Exn) (w : World).
Arguments Ok {A} a w.
Arguments Raise {A} e w.

Definition M (A : Type) := World -> Outcome A.

Definition ret {A} (a : A) : M A := fun w => Ok a w.
Definition raise {A} (e : Exn) : M A := fun w => Raise e w.
Definition bind {A B} (m : M A) (k : A -> M B) : M B :=
  fun w => match m w with
           | Ok a w' => k a w'
           | Raise e w' => Raise e w'
           end.

Declare Scope py_scope.
Delimit Scope py_scope with py.
Notation "x <- m ;; k" := (bind m (fun x => k))
  (at level 20, m at level 99, k at level 200) : py_scope.
Notation "m ;; k" := (bind m (fun _ => k))
  (at level 100, k at level 200, right associativity) : py_scope.
Open Scope py_scope.

(** The world a call leaves behind, whether it returned or raised. *)
Definition final {A} (o : Outcome A) : World :=
  match o with Ok _ w => w | Raise _ w => w end.

Definition attr {A} (f : Piece -> A) : M A := fun w => Ok (f (w_self w)) w.
Definition assign (f : Piece -> Piece) : M unit :=
  fun w => Ok tt (with_self (f (w_self w)) w).
Definition on_bot (f : Host -> Host) : M unit :=
  fun w => Ok tt (with_bot (f (w_bot w)) w).
Definition try_on_bot (f : Host -> Exn + Host) : M unit :=
  fun w => match f (w_bot w) with
           | inr h => Ok tt (with_bot h w)
           | inl e => Raise e w
           end.

(** Allocation of a command object, and access through a reference. *)
Definition new (c : Command) : M CmdRef :=
  fun w => Ok (length (w_commands w)) (with_commands (w_commands w ++ [c]) w).
Definition deref (r : CmdRef) : M Command :=
  fun w => match w_commands w !! r with
           | Some c => Ok c w
           | None => Raise ReferenceError w
           end.
Definition update (r : CmdRef) (f : Command -> Command) : M unit :=
  fun w => match w_commands w !! r with
           | Some c => Ok tt (with_commands (<[r := f c]> (w_commands w)) w)
           | None => Raise ReferenceError w
           end.

Definition new_loop (l : Loop) : M LoopRef :=
  fun w => Ok (length (w_loops w)) (with_loops (w_loops w ++ [l]) w).
Definition deref_loop (r : LoopRef) : M Loop :=
  fun w => match w_loops w !! r with
           | Some l => Ok l w
           | None => Raise ReferenceError w
           end.
Definition update_loop (r : LoopRef) (f : Loop -> Loop) : M unit :=
  fun w => match w_loops w !! r with
           | Some l => Ok tt (with_loops (<[r := f l]> (w_loops w)) w)
           | None => Raise ReferenceError w
           end.

(** [for x in l: body(x)] *)
Fixpoint for_each {A} (l : list A) (body : A -> M unit) : M unit :=
  match l with
  | [] => ret tt
  | x :: l' => body x ;; for_each l' body
  end.

(** ** Module-level functions and properties *)

(** [get_parent_piece(obj)]: the truthy value under ["piece"] in
    [obj.extras], or [LookupError]. *)
Definition get_parent_piece (obj : CmdRef) : M Value :=
  o <- deref obj ;;
  match dict_get "piece" (cmd_extras o) with
  | Some plugin => if truthy plugin then ret plugin else raise LookupError
  | None => raise LookupError
  end.

(** The [bot] property. *)
Definition bot : M nat :=
  b <- attr _bot ;;
  match b with
  | None => raise RuntimeError
  | Some b => ret b
  end.

(** [{**attrs, **kwargs}]: keys of [kwargs] overwrite in place or go last. *)
Definition dict_merge {V} (attrs kwargs : dict V) : dict V :=
  foldl (fun d kv => dict_set kv.1 kv.2 d) attrs kwargs.

(** [Piece._apply_attrs(attrs, **kwargs)]; an ["extras"] entry that is not
    a dict has no [setdefault]. *)
Definition _apply_attrs (self : Piece) (attrs kwargs : dict Value)
    : Exn + dict Value :=
  let new_attrs :=
    dict_merge attrs (filter (fun kv => is_none kv.2 = false) kwargs) in
  let new_attrs := dict_setdefault "extras" (VDict []) new_attrs in
  match dict_get "extras" new_attrs with
  | Some (VDict extras) =>
      let extras := dict_setdefault "piece" (VPiece (piece_id self)) extras in
      let extras :=
        dict_setdefault "metadata" (VMetadata (piece_id self)) extras in
      inr (dict_set "extras" (VDict extras) new_attrs)
  | _ => inl AttributeError
  end.

(** [name or callback.__name__] *)
Definition name_or (name : option string) (callback : Callback) : string :=
  match name with
  | Some n => if decide (n = "") then cb_name callback else n
  | None => cb_name callback
  end.

(** ** Registrars *)

(** [Piece.command(name, cls = cls, **kwargs)(callback)] *)
Definition command (name : option string) (cls : option CommandClass)
    (kwargs : dict Value) (callback : Callback) : M CmdRef :=
  let attributes : dict Value := [] in
  let cls := match cls with Some c => c | None => AnyCommand end in
  if cb_is_coro callback then
    let c := construct Prefix cls callback (name_or name callback) attributes in
    command <- new c ;;
    assign (fun self =>
      set_commands (dict_set (qualified_name c) command (_commands self)) self) ;;
    ret command
  else raise TypeError.

(** [Piece.group(name, cls = cls, **kwargs)(callback)] *)
Definition group (name : option string) (cls : option CommandClass)
    (kwargs : dict Value) (callback : Callback) : M CmdRef :=
  let attributes : dict Value := [] in
  let cls := match cls with Some c => c | None => AnyGroup end in
  if cb_is_coro callback then
    let c := construct Prefix cls callback (name_or name callback) attributes in
    command <- new c ;;
    assign (fun self =>
      set_commands (dict_set (qualified_name c) command (_commands self)) self) ;;
    ret command
  else raise TypeError.

(** [Piece.slash_command(name = name, **attributes)(callback)] *)
Definition slash_command (name : option string) (attributes : dict Value)
    (callback : Callback) : M CmdRef :=
  if cb_is_coro callback then
    let c := construct Slash Invokable callback (name_or name callback)
               attributes in
    command <- new c ;;
    assign (fun self =>
      set_slash_commands
        (dict_set (qualified_name c) command (_slash_commands self)) self) ;;
    ret command
  else raise TypeError.

(** [Piece.user_command(name = name, **attributes)(callback)] *)
Definition user_command (name : option string) (attributes : dict Value)
    (callback : Callback) : M CmdRef :=
  if cb_is_coro callback then
    let c := construct User Invokable callback (name_or name callback)
               attributes in
    command <- new c ;;
    assign (fun self =>
      set_user_commands
        (dict_set (qualified_name c) command (_user_commands self)) self) ;;
    ret command
  else raise TypeError.

(** [Piece.message_command(name = name, **attributes)(callback)] *)
Definition message_command (name : option string) (attributes : dict Value)
    (callback : Callback) : M CmdRef :=
  if cb_is_coro callback then
    let c := construct Message Invokable callback (name_or name callback)
               attributes in
    command <- new c ;;
    assign (fun self =>
      set_message_commands
        (dict_set (qualified_name c) command (_message_commands self)) self) ;;
    ret command
  else raise TypeError.

(** *** Checks *)

Definition command_check (predicate : Check) : M Check :=
  assign (fun self =>
    set_command_checks (_command_checks self ++ [predicate]) self) ;;
  ret predicate.

Definition slash_command_check (predicate : Check) : M Check :=
  assign (fun self =>
    set_slash_command_checks (_slash_command_checks self ++ [predicate]) self) ;;
  ret predicate.

Definition message_command_check (predicate : Check) : M Check :=
  assign (fun self =>
    set_message_command_checks
      (_message_command_checks self ++ [predicate]) self) ;;
  ret predicate.

Definition user_command_check (predicate : Check) : M Check :=
  assign (fun self =>
    set_user_command_checks (_user_command_checks self ++ [predicate]) self) ;;
  ret predicate.

Definition global_command_check (predicate : Check) : M Check :=
  assign (fun self =>
    set_global_command_checks
      (_global_command_checks self ++ [predicate]) self) ;;
  ret predicate.

(** Reading a slot that was never assigned raises [AttributeError]. *)
Definition slot {A} (f : Piece -> option A) : M A :=
  v <- attr f ;;
  match v with
  | Some a => ret a
  | None => raise AttributeError
  end.

Definition global_command_check_once (predicate : Check) : M Check :=
  once <- slot _global_command_once_checks ;;
  assign (set_global_command_once_checks (Some (once ++ [predicate]))) ;;
  ret predicate.

Definition global_application_command_check (predicate : Check) : M Check :=
  assign (fun self =>
    set_global_application_command_checks
      (_global_application_command_checks self ++ [predicate]) self) ;;
  ret predicate.

Definition global_slash_command_check (predicate : Check) : M Check :=
  assign (fun self =>
    set_global_slash_command_checks
      (_global_slash_command_checks self ++ [predicate]) self) ;;
  ret predicate.

Definition global_message_command_check (predicate : Check) : M Check :=
  assign (fun self =>
    set_global_message_command_checks
      (_global_message_command_checks self ++ [predicate]) self) ;;
  ret predicate.

Definition global_user_command_check (predicate : Check) : M Check :=
  assign (fun self =>
    set_global_user_command_checks
      (_global_user_command_checks self ++ [predicate]) self) ;;
  ret predicate.

(** *** Listeners *)

(** [d.setdefault(key, []).append(callback)] *)
Definition setdefault_append (key : string) (callback : Callback)
    (d : dict (list Callback)) : dict (list Callback) :=
  match dict_get key d with
  | Some l => dict_set key (l ++ [callback]) d
  | None => dict_set key [callback] d
  end.

(** [Piece.add_listeners] with the callbacks [callbacks] and [event = event] *)
Definition add_listeners (callbacks : list Callback) (event : option string)
    : M unit :=
  for_each callbacks (fun callback =>
    let key := match event with
               | None => cb_name callback
               | Some e => e
               end in
    assign (fun self =>
      set_listeners (setdefault_append key callback (_listeners self)) self)).

(** [Piece.listener(event)(callback)] *)
Definition listener (event : option string) (callback : Callback)
    : M Callback :=
  add_listeners [callback] event ;;
  ret callback.

(** *** Tasks *)

(** [Piece.register_loop(wait_until_ready = b)(loop)] *)
Definition register_loop (wait_until_ready : bool) (loop : LoopRef)
    : M LoopRef :=
  (if wait_until_ready then
     l <- deref_loop loop ;;
     match _before_loop l with
     | Some _ => raise TypeError
     | None =>
         id <- attr piece_id ;;
         update_loop loop (set_before_loop (Some (WaitUntilReady id)))
     end
   else ret tt) ;;
  assign (fun self => set_loops (_loops self ++ [loop]) self) ;;
  ret loop.

(** *** Hooks *)

(** [Piece.load_hook(post)(callback)] *)
Definition load_hook (post : bool) (callback : Callback) : M Callback :=
  (if post
   then assign (fun self =>
          set_post_load_hooks (_post_load_hooks self ++ [callback]) self)
   else assign (fun self =>
          set_pre_load_hooks (_pre_load_hooks self ++ [callback]) self)) ;;
  ret callback.

(** [Piece.unload_hook(post)(callback)] *)
Definition unload_hook (post : bool) (callback : Callback) : M Callback :=
  (if post
   then assign (fun self =>
          set_post_unload_hooks (_post_unload_hooks self ++ [callback]) self)
   else assign (fun self =>
          set_pre_unload_hooks (_pre_unload_hooks self ++ [callback]) self)) ;;
  ret callback.

(** ** Loading and unloading *)

(** [Piece._prepend_plugin_checks(checks, command)] *)
Definition _prepend_plugin_checks (cs : list Check) (command : CmdRef)
    : M unit :=
  match cs with
  | [] => ret tt
  | _ :: _ => update command (fun c => set_checks (cs ++ checks c) c)
  end.

(** Calling a hook and awaiting the result: the hook's own exception, or the
    [TypeError] of awaiting what a function that is not a coroutine function
    returned. *)
Definition call_hook (hook : Callback) : option Exn :=
  match cb_raises hook with
  | Some e => Some e
  | None => if cb_is_coro hook then None else Some TypeError
  end.

(** What [hook()] hands back: the coroutine of a coroutine function, with
    the failure it ends in when it is run, or a value that cannot be
    awaited. *)
Inductive HookResult :=
| Coroutine (raises : option Exn)
| NotAwaitable.

(** [hook()].  A coroutine function runs nothing yet; any other function
    runs at once, and raises or returns. *)
Definition call (hook : Callback) : Exn + HookResult :=
  if cb_is_coro hook then inr (Coroutine (cb_raises hook))
  else match cb_raises hook with
       | Some e => inl e
       | None => inr NotAwaitable
       end.

(** [hook() for hook in hooks], unpacked into the arguments of a call:
    every hook is called, in registration order, before the call is made. *)
Fixpoint call_all (hooks : list Callback) : M (list HookResult) :=
  match hooks with
  | [] => ret []
  | hook :: hooks' =>
      match call hook with
      | inl e => raise e
      | inr r => rs <- call_all hooks' ;; ret (r :: rs)
      end
  end.

Definition is_coroutine (r : HookResult) : bool :=
  match r with
  | Coroutine _ => true
  | NotAwaitable => false
  end.

Fixpoint first_failure (rs : list HookResult) : option Exn :=
  match rs with
  | [] => None
  | Coroutine (Some e) :: _ => Some e
  | _ :: rs' => first_failure rs'
  end.

(** Modelled from the spec: [await asyncio.gather] of the arguments [rs].
    An argument that cannot be awaited is rejected with [TypeError] before
    any coroutine has run.  The coroutines run concurrently and the first
    failure is the one raised; the model takes them in the order given,
    which is the order in which coroutines that never suspend complete. *)
Definition asyncio_gather (rs : list HookResult) : M unit :=
  if forallb is_coroutine rs then
    match first_failure rs with
    | Some e => raise e
    | None => ret tt
    end
  else raise TypeError.

(** [await asyncio.gather] of [hook()] for every hook of [hooks]. *)
Definition gather (hooks : list Callback) : M unit :=
  rs <- call_all hooks ;;
  asyncio_gather rs.

(** [bot.add_command(command)] and its siblings per command kind: the host
    files the command under its name. *)
Definition bot_add_command (k : Kind) (command : CmdRef) : M unit :=
  c <- deref command ;;
  try_on_bot (add_command k (cmd_name c) command).

(** Modelled from the spec: [loop.start()] launches the task of a loop
    that has none in flight, and raises [RuntimeError] on a loop that is
    running. *)
Definition start (loop : LoopRef) : M unit :=
  l <- deref_loop loop ;;
  if running l then raise RuntimeError
  else update_loop loop (fun l =>
         set_cancel_requested false (set_running true l)).

(** Modelled from the spec: [loop.cancel()] asks the task of a running loop
    to cancel and returns at once: the loop is still running afterwards,
    until the event loop has let the task end.  On a loop that is not
    running it does nothing. *)
Definition cancel (loop : LoopRef) : M unit :=
  l <- deref_loop loop ;;
  if running l then update_loop loop (set_cancel_requested true)
  else ret tt.

(** [Piece.load(bot)]; the bot is the host of the world. *)
Definition load : M unit :=
  (fun w => assign (set_bot (Some (host_id (w_bot w)))) w) ;;

  (hooks <- attr _pre_load_hooks ;; gather hooks) ;;

  (fun w =>
     (if is_bot_base (w_bot w) then
        (cs <- attr _commands ;;
         for_each (values cs) (fun command =>
           bot_add_command Prefix command ;;
           (cc <- attr _command_checks ;; _prepend_plugin_checks cc command))) ;;

        (cs <- attr _global_command_checks ;;
         for_each cs (fun check => on_bot (add_check ScopePrefix check))) ;;

        (cs <- slot _global_command_once_checks ;;
         for_each cs (fun check => on_bot (add_check ScopePrefixOnce check)))
      else ret tt) w) ;;

  (cs <- attr _global_application_command_checks ;;
   for_each cs (fun check =>
     on_bot (add_app_command_check check true true true))) ;;

  (cs <- attr _slash_commands ;;
   for_each (values cs) (fun command =>
     bot_add_command Slash command ;;
     (cc <- attr _slash_command_checks ;; _prepend_plugin_checks cc command))) ;;

  (cs <- attr _global_slash_command_checks ;;
   for_each cs (fun check =>
     on_bot (add_app_command_check check true false false))) ;;

  (cs <- attr _user_commands ;;
   for_each (values cs) (fun command =>
     bot_add_command User command ;;
     (cc <- attr _user_command_checks ;; _prepend_plugin_checks cc command))) ;;

  (cs <- attr _global_user_command_checks ;;
   for_each cs (fun check =>
     on_bot (add_app_command_check check false true false))) ;;

  (cs <- attr _message_commands ;;
   for_each (values cs) (fun command =>
     bot_add_command Message command ;;
     (cc <- attr _message_command_checks ;;
      _prepend_plugin_checks cc command))) ;;

  (cs <- attr _global_message_command_checks ;;
   for_each cs (fun check =>
     on_bot (add_app_command_check check false false true))) ;;

  (ls <- attr _listeners ;;
   for_each ls (fun '(event, listeners) =>
     for_each listeners (fun listener =>
       try_on_bot (add_listener listener event)))) ;;

  (ls <- attr _loops ;; for_each ls start) ;;

  (hooks <- attr _post_load_hooks ;; gather hooks) ;;

  on_bot _schedule_delayed_command_sync.

(** [Piece.unload(bot)] *)
Definition unload : M unit :=
  (hooks <- attr _pre_unload_hooks ;; gather hooks) ;;

  (fun w =>
     (if is_bot_base (w_bot w) then
        (cs <- attr _commands ;;
         for_each (keys cs) (fun command =>
           on_bot (remove_command Prefix command))) ;;

        (cs <- attr _global_command_checks ;;
         for_each cs (fun check => on_bot (remove_check ScopePrefix check))) ;;

        (cs <- slot _global_command_once_checks ;;
         for_each cs (fun check =>
           on_bot (remove_check ScopePrefixOnce check)))
      else ret tt) w) ;;

  (cs <- attr _global_application_command_checks ;;
   for_each cs (fun check =>
     on_bot (remove_app_command_check check true true true))) ;;

  (cs <- attr _slash_commands ;;
   for_each (keys cs) (fun command => on_bot (remove_command Slash command))) ;;

  (cs <- attr _global_slash_command_checks ;;
   for_each cs (fun check =>
     on_bot (remove_app_command_check check true false false))) ;;

  (cs <- attr _user_commands ;;
   for_each (keys cs) (fun command => on_bot (remove_command User command))) ;;

  (cs <- attr _global_user_command_checks ;;
   for_each cs (fun check =>
     on_bot (remove_app_command_check check false true false))) ;;

  (cs <- attr _message_commands ;;
   for_each (keys cs) (fun command =>
     on_bot (remove_command Message command))) ;;

  (cs <- attr _global_message_command_checks ;;
   for_each cs (fun check =>
     on_bot (remove_app_command_check check false false true))) ;;

  (ls <- attr _listeners ;;
   for_each ls (fun '(event, listeners) =>
     for_each listeners (fun listener =>
       on_bot (remove_listener listener event)))) ;;

  (ls <- attr _loops ;; for_each ls cancel) ;;

  (hooks <- attr _post_unload_hooks ;; gather hooks) ;;

  on_bot _schedule_delayed_command_sync.

(** ** Concrete objects used in examples *)

(** A host with nothing attached; [bb] tells whether it is a [BotBase]. *)
Definition empty_host (id : nat) (bb : bool) : Host :=
  {| host_id := id; is_bot_base := bb;
     all_commands := []; all_slash_commands := [];
     all_user_commands := []; all_message_commands := [];
     bot_checks := []; bot_check_once := [];
     bot_slash_command_checks := []; bot_user_command_checks := [];
     bot_message_command_checks := [];
     extra_events := []; sync_requests := 0 |}.

(** The world right after [Piece(name = nm)] was constructed. *)
Definition fresh_world (nm : string) (h : Host) : World :=
  {| w_commands := []; w_loops := []; w_self := init 1 nm []; w_bot := h |}.

Definition coroutine (id : nat) (nm : string) : Callback :=
  {| cb_id := id; cb_name := nm; cb_is_coro := true; cb_checks := [];
     cb_raises := None |}.

Definition plain_function (id : nat) (nm : string) : Callback :=
  {| cb_id := id; cb_name := nm; cb_is_coro := false; cb_checks := [];
     cb_raises := None |}.

Definition failing_hook (id : nat) (nm : string) (e : Exn) : Callback :=
  {| cb_id := id; cb_name := nm; cb_is_coro := true; cb_checks := [];
     cb_raises := Some e |}.

(** ** Well-formed worlds

    The registries and the per-kind check lists of a piece, by command
    kind, and the conditions under which the theorems on [load] and
    [unload] are stated.  They are boolean so that they can be evaluated on
    a concrete world. *)

Definition registry (k : Kind) (self : Piece) : dict CmdRef :=
  match k with
  | Prefix => _commands self
  | Slash => _slash_commands self
  | User => _user_commands self
  | Message => _message_commands self
  end.

Definition kind_checks (k : Kind) (self : Piece) : list Check :=
  match k with
  | Prefix => _command_checks self
  | Slash => _slash_command_checks self
  | User => _user_command_checks self
  | Message => _message_command_checks self
  end.

Definition all_kinds : list Kind := [Prefix; Slash; User; Message].

(** [e] is a live command object filed under its qualified name. *)
Definition filed_under (cmds : list Command) (e : string * CmdRef) : bool :=
  match cmds !! e.2 with
  | Some c => bool_decide (qualified_name c = e.1)
  | None => false
  end.

(** Every registry entry is a live command object under its own name, as
    the registrars leave it. *)
Definition entries_named (w : World) : bool :=
  forallb (fun k => forallb (filed_under (w_commands w)) (registry k (w_self w)))
    all_kinds.

(** No command object is registered twice, each registrar call having
    constructed its own. *)
Definition entries_distinct (self : Piece) : bool :=
  bool_decide (NoDup (all_kinds ≫= fun k => values (registry k self))).

(** None of the registered command objects is on the host yet. *)
Definition unattached (w : World) : bool :=
  forallb (fun k =>
    forallb (fun r => bool_decide (r ∉ values (host_table k (w_bot w))))
      (values (registry k (w_self w)))) all_kinds.

(** The names of the live command objects, by reference. *)
Definition names (w : World) : list string := cmd_name <$> w_commands w.

(** One round of the loops of [load] over the commands of a kind. *)
Definition attach (k : Kind) (command : CmdRef) : M unit :=
  bot_add_command k command ;;
  (cc <- attr (kind_checks k) ;; _prepend_plugin_checks cc command).

(** What [_prepend_plugin_checks cs] makes of a command object. *)
Definition prepended (cs : list Check) (c : Command) : Command :=
  match cs with
  | [] => c
  | _ :: _ => set_checks (cs ++ checks c) c
  end.

(** The state of the registry entries in the course of a [load] that started
    with the command objects [cmds0]: an entry is either not on the host and
    as it was, or on the host under its own name and with the checks of its
    kind prepended. *)
Definition entry_ok (p : Piece) (cmds0 : list Command) (w : World) : Prop :=
  forall k n r c0, (n, r) ∈ registry k p -> cmds0 !! r = Some c0 ->
    ((r ∉ values (host_table k (w_bot w))) /\ w_commands w !! r = Some c0) \/
    ((n, r) ∈ host_table k (w_bot w) /\
     w_commands w !! r = Some (prepended (kind_checks k p) c0)).

Definition attach_inv (p : Piece) (cmds0 : list Command) (w : World) : Prop :=
  (forall k, registry k (w_self w) = registry k p /\
             kind_checks k (w_self w) = kind_checks k p) /\
  entry_ok p cmds0 w.

(** [preserves P m]: the world [m] leaves behind satisfies [P] whenever the
    world it started in did, and that whether [m] returns or raises. *)
Definition preserves {A} (P : World -> Prop) (m : M A) : Prop :=
  forall w, P w -> P (final (m w)).

(** Closed forms of what the loops of [load] and [unload] do to the host. *)
Definition extend_table (k : Kind) (es : dict nat) (h : Host) : Host :=
  set_host_table k (host_table k h ++ es) h.
Definition extend_checks (s : Scope) (cs : list nat) (h : Host) : Host :=
  set_host_checks s (host_checks s h ++ cs) h.
Definition extend_events (ps : list (string * Callback)) (h : Host) : Host :=
  set_extra_events (extra_events h ++ ps) h.

Definition prune_table (k : Kind) (ns : list string) (h : Host) : Host :=
  set_host_table k (foldl (fun d n => dict_pop n d) (host_table k h) ns) h.
Definition prune_checks (s : Scope) (cs : list nat) (h : Host) : Host :=
  set_host_checks s
    (foldl (fun l c => remove_first c l) (host_checks s h) cs) h.
Definition prune_events (ps : list (string * Callback)) (h : Host) : Host :=
  set_extra_events (foldl (fun l x => remove_first x l) (extra_events h) ps) h.

(** The listeners of a piece as (event, callable) pairs, in the order in
    which [load] and [unload] walk them. *)
Definition listener_pairs (ls : dict (list Callback)) : list (string * Callback) :=
  ls ≫= fun '(event, listeners) => (fun l => (event, l)) <$> listeners.

Definition all_scopes (cs : list nat) (f : Scope -> list nat -> Host -> Host)
    (slash user message : bool) (h : Host) : Host :=
  when user (f ScopeUser cs)
    (when slash (f ScopeSlash cs) (when message (f ScopeMessage cs) h)).

(** The host after a [load] of the piece [p] that returned. *)
Definition loaded_host (p : Piece) (h : Host) : Host :=
  let h := if is_bot_base h then
             extend_checks ScopePrefixOnce
               (default [] (_global_command_once_checks p))
               (extend_checks ScopePrefix (_global_command_checks p)
                  (extend_table Prefix (_commands p) h))
           else h in
  let h := all_scopes (_global_application_command_checks p) extend_checks
             true true true h in
  let h := extend_table Slash (_slash_commands p) h in
  let h := extend_checks ScopeSlash (_global_slash_command_checks p) h in
  let h := extend_table User (_user_commands p) h in
  let h := extend_checks ScopeUser (_global_user_command_checks p) h in
  let h := extend_table Message (_message_commands p) h in
  let h := extend_checks ScopeMessage (_global_message_command_checks p) h in
  let h := extend_events (listener_pairs (_listeners p)) h in
  _schedule_delayed_command_sync h.

(** The host after an [unload] of the piece [p] that returned. *)
Definition unloaded_host (p : Piece) (h : Host) : Host :=
  let h := if is_bot_base h then
             prune_checks ScopePrefixOnce
               (default [] (_global_command_once_checks p))
               (prune_checks ScopePrefix (_global_command_checks p)
                  (prune_table Prefix (keys (_commands p)) h))
           else h in
  let h := all_scopes (_global_application_command_checks p) prune_checks
             true true true h in
  let h := prune_table Slash (keys (_slash_commands p)) h in
  let h := prune_checks ScopeSlash (_global_slash_command_checks p) h in
  let h := prune_table User (keys (_user_commands p)) h in
  let h := prune_checks ScopeUser (_global_user_command_checks p) h in
  let h := prune_table Message (keys (_message_commands p)) h in
  let h := prune_checks ScopeMessage (_global_message_command_checks p) h in
  let h := prune_events (listener_pairs (_listeners p)) h in
  _schedule_delayed_command_sync h.

(** [runs p ns m h h' Q]: started on the piece [p], the command names [ns]
    and the host [h], a call of [m] that returns leaves the piece and the
    names as they were and the host as [h'], and [Q] holds. *)
Definition runs {A} (p : Piece) (ns : list string) (m : M A) (h h' : Host)
    (Q : Prop) : Prop :=
  forall w a w',
    w_self w = p -> names w = ns -> w_bot w = h -> m w = Ok a w' ->
    (w_self w' = p /\ names w' = ns /\ w_bot w' = h') /\ Q.


(** None of [cs] occurs in [l]. *)
Definition none_in {A} `{EqDecision A} (cs l : list A) : bool :=
  forallb (fun c => bool_decide (c ∉ l)) cs.

(** No global check of the piece is among the checks the host already
    holds in the lists [load] will append it to. *)
Definition checks_fresh (w : World) : bool :=
  let p := w_self w in
  let h := w_bot w in
  (if is_bot_base h then
     none_in (_global_command_checks p) (bot_checks h) &&
     none_in (default [] (_global_command_once_checks p)) (bot_check_once h)
   else true) &&
  none_in (_global_application_command_checks p ++ _global_slash_command_checks p)
    (bot_slash_command_checks h) &&
  none_in (_global_application_command_checks p ++ _global_user_command_checks p)
    (bot_user_command_checks h) &&
  none_in (_global_application_command_checks p ++ _global_message_command_checks p)
    (bot_message_command_checks h).

(** No listener of the piece is already registered on the host under the
    same event. *)
Definition listeners_fresh (w : World) : bool :=
  none_in (listener_pairs (_listeners (w_self w))) (extra_events (w_bot w)).




(** ** More concrete objects *)

(** A prefix command carrying the checks 1 and 2, on a piece with the
    command checks 7 and 8 and a slash command of its own. *)
Definition checked_world (h : Host) : World :=
  final ((command (Some "ping") None []
            {| cb_id := 1; cb_name := "callback"; cb_is_coro := true;
               cb_checks := [1; 2]; cb_raises := None |} ;;
          command_check 7 ;; command_check 8 ;;
          slash_command (Some "pong") []
            {| cb_id := 2; cb_name := "other"; cb_is_coro := true;
               cb_checks := [3]; cb_raises := None |} ;;
          slash_command_check 9) (fresh_world "p" h)).


(** A piece with a slash command, a listener, a loop, global checks and
    hooks, not loaded yet. *)
Definition busy_world (h : Host) : World :=
  final ((slash_command (Some "ping") [] (coroutine 1 "ping") ;;
          global_application_command_check 10 ;;
          global_slash_command_check 11 ;;
          global_slash_command_check 10 ;;
          listener (Some "on_message") (coroutine 2 "seen") ;;
          listener (Some "on_message") (coroutine 3 "logged") ;;
          loop <- new_loop {| loop_coro := coroutine 4 "tick";
                              _before_loop := None; running := false;
                              cancel_requested := false |} ;;
          register_loop true loop ;;
          load_hook false (coroutine 5 "setup") ;;
          unload_hook true (coroutine 6 "teardown"))
         (fresh_world "p" h)).



(** ** The loop decorator, and further conditions on worlds *)

(** Modelled from the spec: [tasks.loop] applied to a coroutine function
    makes a new loop without a ready-guard that is not running; disnake
    rejects what is not a coroutine function. *)
Definition tasks_loop (coro : Callback) : M nat :=
  if cb_is_coro coro
  then new_loop {| loop_coro := coro; _before_loop := None; running := false;
                   cancel_requested := false |}
  else raise TypeError.

(** [Piece.loop(wait_until_ready = b)(coro)] *)
Definition loop (wait_until_ready : bool) (coro : Callback) : M nat :=
  f <- tasks_loop coro ;;
  register_loop wait_until_ready f ;;
  ret f.


(** [ends_with P m Q R]: started in a world satisfying [P], a call of [m]
    leaves a world satisfying [Q] when it returns and one satisfying [R]
    when it raises. *)
Definition ends_with {A} (P : World -> Prop) (m : M A) (Q R : World -> Prop)
    : Prop :=
  forall w, P w -> match m w with Ok _ w' => Q w' | Raise _ w' => R w' end.

(** No name of the registries is taken in the host's table of its kind. *)
Definition names_free (w : World) : bool :=
  forallb (fun k =>
    none_in (keys (registry k (w_self w))) (keys (host_table k (w_bot w))))
    all_kinds.

(** What [load] and [unload] on a [BotBase] host cannot reach while the slot
    [_global_command_once_checks] is unassigned: the application command
    tables and check lists, the listeners and the loops. *)
Definition beyond_once_slot (w : World)
    : dict nat * dict nat * dict nat * list nat * list nat * list nat *
      list (string * Callback) * list Loop :=
  (all_slash_commands (w_bot w), all_user_commands (w_bot w),
   all_message_commands (w_bot w), bot_slash_command_checks (w_bot w),
   bot_user_command_checks (w_bot w), bot_message_command_checks (w_bot w),
   extra_events (w_bot w), w_loops w).

(** Assignment to the registry of a kind. *)
Definition set_registry (k : Kind) (v : dict nat) (p : Piece) : Piece :=
  match k with
  | Prefix => set_commands v p
  | Slash => set_slash_commands v p
  | User => set_user_commands v p
  | Message => set_message_commands v p
  end.

(** The world a command registrar of kind [k] leaves when it has
    constructed the command object [c]. *)
Definition registered (k : Kind) (c : Command) (w : World) : World :=
  with_self
    (set_registry k
       (dict_set (qualified_name c) (length (w_commands w))
          (registry k (w_self w))) (w_self w))
    (with_commands (w_commands w ++ [c]) w).

(** One registration of an ordinary command, through [group] or through
    [command]: the two registrars that file into [_commands]. *)
Definition register_prefix (grp : bool) (name : option string)
    (cls : option CommandClass) (kwargs : dict Value) (callback : Callback)
    : M CmdRef :=
  if grp then group name cls kwargs callback
  else command name cls kwargs callback.

(** A registration still to be made: whether it goes through [group], the
    name, the class, the keyword arguments and the callback. *)
Definition Registration : Type :=
  bool * option string * option CommandClass * dict Value * Callback.

(** The name a registration files its command under. *)
Definition reg_name (reg : Registration) : string :=
  name_or reg.1.1.1.2 reg.2.

(** The registrations [regs] made one after the other. *)
Definition register_each (regs : list Registration) : M unit :=
  for_each regs (fun '(grp, name, cls, kwargs, callback) =>
    register_prefix grp name cls kwargs callback ;; ret tt).

(** The command objects and the keys of the prefix registry only grow, at
    the end, in the course of registrations. *)
Definition grown (w w' : World) : Prop :=
  w_commands w `prefix_of` w_commands w' /\
  keys (_commands (w_self w)) `prefix_of` keys (_commands (w_self w')) /\
  w_bot w' = w_bot w /\
  _pre_load_hooks (w_self w') = _pre_load_hooks (w_self w).

(** The extras dict an attribute dict carries: the empty dict when there is
    no ["extras"] key, nothing when the value under it is not a dict. *)
Definition extras_of (attrs : dict Value) : option (dict Value) :=
  match dict_get "extras" attrs with
  | Some (VDict e) => Some e
  | Some _ => None
  | None => Some []
  end.

(** The key [add_listeners] files a callback under. *)
Definition listener_key (event : option string) (callback : Callback) : string :=
  match event with
  | None => cb_name callback
  | Some e => e
  end.

(** * Reasoning about calls *)

Section Calls.
Context {A B : Type}.

Lemma bind_ok (m : M A) (k : A -> M B) w b w' :
  bind m k w = Ok b w' <-> exists a w1, m w = Ok a w1 /\ k a w1 = Ok b w'.
Proof.
  unfold bind. split.
  - destruct (m w) as [a w1|e w1]; [eauto | discriminate].
  - intros (a & w1 & -> & Hk). exact Hk.
Qed.

Lemma final_bind (m : M A) (k : A -> M B) w :
  final (bind m k w)
  = match m w with Ok a w1 => final (k a w1) | Raise _ w1 => w1 end.
Proof. unfold bind. by destruct (m w). Qed.
End Calls.

Section Preserves.
Context (P : World -> Prop).

Lemma preserves_ret {A} (a : A) : preserves P (ret a).
Proof. by intros w HP. Qed.

Lemma preserves_raise {A} e : preserves P (@raise A e).
Proof. by intros w HP. Qed.

Lemma preserves_bind {A B} (m : M A) (k : A -> M B) :
  preserves P m -> (forall a, preserves P (k a)) -> preserves P (bind m k).
Proof.
  intros Hm Hk w HP. rewrite final_bind.
  specialize (Hm w HP). destruct (m w) as [a w1|e w1]; simpl in Hm; [|done].
  by apply Hk.
Qed.

Lemma preserves_for_each {A} (l : list A) body :
  (forall x, x ∈ l -> preserves P (body x)) -> preserves P (for_each l body).
Proof.
  induction l as [|x l IH]; intros Hb; simpl.
  - apply preserves_ret.
  - apply preserves_bind; [apply Hb; left|].
    intros _. apply IH. intros y Hy. apply Hb. by right.
Qed.

Lemma preserves_attr {A} (f : Piece -> A) : preserves P (attr f).
Proof. by intros w HP. Qed.

Lemma preserves_slot {A} (f : Piece -> option A) : preserves P (slot f).
Proof.
  intros w HP. unfold slot, bind, attr. by destruct (f (w_self w)).
Qed.

Lemma call_all_final hooks w : final (call_all hooks w) = w.
Proof.
  induction hooks as [|h hooks IH]; simpl; [done|].
  destruct (call h); [done|]. unfold bind.
  by destruct (call_all hooks w).
Qed.

Lemma gather_final hooks w : final (gather hooks w) = w.
Proof.
  unfold gather, bind. pose proof (call_all_final hooks w) as H.
  destruct (call_all hooks w) as [rs w'|e w']; simpl in H; subst; [|done].
  unfold asyncio_gather.
  destruct (forallb is_coroutine rs); [|done]. by destruct (first_failure rs).
Qed.

Lemma preserves_gather hooks : preserves P (gather hooks).
Proof. intros w HP. by rewrite gather_final. Qed.

Lemma preserves_deref r : preserves P (deref r).
Proof. intros w HP. unfold deref. by destruct (w_commands w !! r). Qed.

Lemma preserves_deref_loop r : preserves P (deref_loop r).
Proof. intros w HP. unfold deref_loop. by destruct (w_loops w !! r). Qed.

Lemma preserves_if_bot_base {A} (m1 m2 : M A) :
  preserves P m1 -> preserves P m2 ->
  preserves P (fun w => (if is_bot_base (w_bot w) then m1 else m2) w).
Proof.
  intros H1 H2 w HP. destruct (is_bot_base (w_bot w)); [by apply H1|by apply H2].
Qed.

(** Calls on the bot, for properties that do not look at what they write. *)
Lemma preserves_on_bot f :
  (forall w, P w -> P (with_bot (f (w_bot w)) w)) -> preserves P (on_bot f).
Proof. intros H w HP. by apply H. Qed.

Lemma preserves_try_on_bot f :
  (forall w h, P w -> f (w_bot w) = inr h -> P (with_bot h w)) ->
  preserves P (try_on_bot f).
Proof.
  intros H w HP. unfold try_on_bot.
  destruct (f (w_bot w)) as [e|h] eqn:E; simpl; [done|]. by eapply H.
Qed.

Lemma preserves_update r f :
  (forall w c, P w -> w_commands w !! r = Some c ->
               P (with_commands (<[r := f c]> (w_commands w)) w)) ->
  preserves P (update r f).
Proof.
  intros H w HP. unfold update.
  destruct (w_commands w !! r) as [c|] eqn:E; simpl; [|done]. by apply H.
Qed.

Lemma preserves_update_loop r f :
  (forall w l, P w -> w_loops w !! r = Some l ->
               P (with_loops (<[r := f l]> (w_loops w)) w)) ->
  preserves P (update_loop r f).
Proof.
  intros H w HP. unfold update_loop.
  destruct (w_loops w !! r) as [c|] eqn:E; simpl; [|done]. by apply H.
Qed.
End Preserves.

(** Walks down the structure of a call; [leaf] closes the primitive calls. *)
Ltac preserves_with leaf :=
  repeat first
    [ apply preserves_ret | apply preserves_raise | apply preserves_attr
    | apply preserves_slot | apply preserves_gather | apply preserves_deref
    | apply preserves_deref_loop
    | solve [leaf]
    | apply preserves_bind; [|intros ?]
    | apply preserves_for_each; intros ? ?
    | apply preserves_if_bot_base
    | progress unfold _prepend_plugin_checks, bot_add_command, start, cancel
    | match goal with
      | |- preserves _ (let '(_, _) := ?x in _) => destruct x
      | |- preserves _ (match ?x with _ => _ end) => destruct x
      | |- preserves _ (if ?x then _ else _) => destruct x
      end ].

(** A property of the piece alone is kept by every call that only touches
    the bot, the commands or the loops. *)
Ltac self_leaf :=
  first
    [ apply preserves_on_bot; intros ? ?; assumption
    | apply preserves_try_on_bot; intros ? ? ? ?; assumption
    | apply preserves_update; intros ? ? ? ?; assumption
    | apply preserves_update_loop; intros ? ? ? ?; assumption ].


(** What is left of a goal about [final (m w)] once [m] is known to keep
    the property. *)
Ltac by_preservation P :=
  match goal with
  | |- context [final (?m ?w)] =>
      let H := fresh in
      cut (preserves P m); [intros H; exact (H w ltac:(done))|]
  end.

Lemma load_self w :
  w_self (final (load w)) = set_bot (Some (host_id (w_bot w))) (w_self w).
Proof.
  unfold load. rewrite final_bind. cbv beta. unfold assign at 1. cbv beta iota.
  set (p := set_bot _ _).
  by_preservation (fun w' => w_self w' = p).
  preserves_with self_leaf.
Qed.

Lemma unload_self w : w_self (final (unload w)) = w_self w.
Proof.
  by_preservation (fun w' => w_self w' = w_self w).
  unfold unload. preserves_with self_leaf.
Qed.

(** ** Hooks *)

(** The hooks as [asyncio.gather] receives them when every call returned. *)
Lemma call_all_spec hooks w :
  match call_all hooks w with
  | Ok rs w' =>
      w' = w /\
      Forall2 (fun hook r =>
        if cb_is_coro hook then r = Coroutine (cb_raises hook)
        else r = NotAwaitable /\ cb_raises hook = None) hooks rs
  | Raise e w' =>
      w' = w /\ exists hook, hook ∈ hooks /\ call_hook hook = Some e
  end.
Proof.
  induction hooks as [|h hooks IH]; simpl; [by split|].
  unfold call, call_hook. destruct (cb_is_coro h) eqn:Hc.
  - unfold bind. destruct (call_all hooks w) as [rs w'|e w'].
    + destruct IH as [-> IH]. split; [done|]. constructor; [by rewrite Hc|done].
    + destruct IH as [-> (hook & Hin & Hh)]. split; [done|].
      exists hook. split; [by right|done].
  - destruct (cb_raises h) as [e|] eqn:Hr.
    + split; [done|]. exists h. split; [left|]. by rewrite Hr.
    + unfold bind. destruct (call_all hooks w) as [rs w'|e w'].
      * destruct IH as [-> IH]. split; [done|].
        constructor; [by rewrite Hc|done].
      * destruct IH as [-> (hook & Hin & Hh)]. split; [done|].
        exists hook. split; [by right|done].
Qed.

Lemma asyncio_gather_spec hooks rs w :
  Forall2 (fun hook r =>
    if cb_is_coro hook then r = Coroutine (cb_raises hook)
    else r = NotAwaitable /\ cb_raises hook = None) hooks rs ->
  (asyncio_gather rs w = Ok tt w /\
   Forall (fun hook => call_hook hook = None) hooks) \/
  (exists hook e,
     hook ∈ hooks /\ call_hook hook = Some e /\
     asyncio_gather rs w = Raise e w).
Proof.
  unfold asyncio_gather. intros H.
  destruct (forallb is_coroutine rs) eqn:Hall.
  - induction H as [|h r hooks rs Hh H IH]; [by left|].
    simpl in Hall. apply andb_prop in Hall as [Hr Hall].
    destruct (cb_is_coro h) eqn:Hc; [|by destruct Hh as [-> _]].
    subst r. simpl. unfold call_hook in *.
    destruct (cb_raises h) as [e|] eqn:He.
    + right. exists h, e. split; [left|]. by rewrite He.
    + destruct (IH Hall) as [[Hg Hf]|(hook & e & Hin & Hh & Hg)].
      * left. split; [done|]. constructor; [|done]. by rewrite He, Hc.
      * right. exists hook, e. split; [by right|done].
  - right. apply not_true_iff_false in Hall.
    assert (Hex : exists hook, hook ∈ hooks /\ cb_is_coro hook = false /\
                               cb_raises hook = None).
    { induction H as [|h r hooks rs Hh H IH]; [done|].
      destruct (cb_is_coro h) eqn:Hc.
      - subst r. simpl in Hall. destruct IH as (hook & Hin & Hh); [done|].
        exists hook. split; [by right|done].
      - destruct Hh as [_ Hr]. exists h. split; [left|done]. }
    destruct Hex as (hook & Hin & Hc & Hr). exists hook, TypeError.
    split; [done|]. split; [|done]. unfold call_hook. by rewrite Hr, Hc.
Qed.

Lemma gather_spec hooks w :
  (gather hooks w = Ok tt w /\
   Forall (fun hook => call_hook hook = None) hooks) \/
  (exists hook e,
     hook ∈ hooks /\ call_hook hook = Some e /\ gather hooks w = Raise e w).
Proof.
  unfold gather, bind. pose proof (call_all_spec hooks w) as H.
  destruct (call_all hooks w) as [rs w'|e w'].
  - destruct H as [-> H]. by apply asyncio_gather_spec.
  - destruct H as [-> (hook & Hin & Hh)]. right. by exists hook, e.
Qed.

Lemma gather_fails hooks w :
  Exists (fun hook => is_Some (call_hook hook)) hooks ->
  exists hook e,
    hook ∈ hooks /\ call_hook hook = Some e /\ gather hooks w = Raise e w.
Proof.
  intros HE. destruct (gather_spec hooks w) as [[_ Hf]|H]; [|done].
  apply Exists_exists in HE as (hook & Hin & [e He]).
  rewrite Forall_forall in Hf. rewrite (Hf hook Hin) in He. done.
Qed.

Lemma gather_succeeds hooks w :
  Forall (fun hook => call_hook hook = None) hooks -> gather hooks w = Ok tt w.
Proof.
  intros Hf. destruct (gather_spec hooks w) as [[H _]|H]; [done|].
  destruct H as (hook & e & Hin & Hh & _).
  rewrite Forall_forall in Hf. rewrite (Hf hook Hin) in Hh. done.
Qed.

(** ** Dictionaries *)

Section DictFacts.
Context {V : Type}.
Implicit Types (d : dict V) (k : string) (v : V).

Lemma dict_get_set_eq k v d : dict_get k (dict_set k v d) = Some v.
Proof.
  induction d as [|[k' v'] d IH]; simpl.
  - by rewrite decide_True.
  - destruct (decide (k = k')) as [->|Hne]; simpl.
    + by rewrite decide_True.
    + by rewrite decide_False.
Qed.

Lemma dict_get_set_ne k k' v d :
  k <> k' -> dict_get k' (dict_set k v d) = dict_get k' d.
Proof.
  intros Hne. induction d as [|[k2 v2] d IH]; simpl.
  - by rewrite decide_False.
  - destruct (decide (k = k2)) as [->|Hne2]; simpl.
    + by rewrite !decide_False.
    + destruct (decide (k' = k2)); [done|exact IH].
Qed.

Lemma dict_get_None k d : dict_get k d = None <-> k ∉ keys d.
Proof.
  unfold keys. induction d as [|[k' v'] d IH]; simpl.
  - split; [intros _; apply not_elem_of_nil|done].
  - rewrite not_elem_of_cons. destruct (decide (k = k')) as [->|Hne].
    + split; [done|]. by intros [? _].
    + rewrite IH. tauto.
Qed.

Lemma dict_get_Some_elem k v d : dict_get k d = Some v -> (k, v) ∈ d.
Proof.
  induction d as [|[k' v'] d IH]; simpl; [done|].
  destruct (decide (k = k')) as [->|Hne].
  - intros [= ->]. left.
  - intros H. right. by apply IH.
Qed.

Lemma dict_get_elem k v d : NoDup (keys d) -> (k, v) ∈ d -> dict_get k d = Some v.
Proof.
  unfold keys. induction d as [|[k' v'] d IH]; simpl; intros Hnd Hin.
  - by apply elem_of_nil in Hin.
  - apply NoDup_cons in Hnd as [Hk' Hnd].
    apply elem_of_cons in Hin as [[= -> ->]|Hin].
    + by rewrite decide_True.
    + destruct (decide (k = k')) as [->|Hne]; [|by apply IH].
      exfalso. apply Hk'. apply list_elem_of_fmap. by exists (k', v).
Qed.

(** Writing under a key that is present leaves the order of the keys as
    it was; a new key goes to the end. *)
Lemma keys_dict_set_present k v d : k ∈ keys d -> keys (dict_set k v d) = keys d.
Proof.
  unfold keys. induction d as [|[k' v'] d IH]; simpl; intros Hin.
  - by apply elem_of_nil in Hin.
  - destruct (decide (k = k')) as [->|Hne]; simpl; [done|].
    apply elem_of_cons in Hin as [?|Hin]; [done|]. f_equal. by apply IH.
Qed.

Lemma dict_set_absent k v d : k ∉ keys d -> dict_set k v d = d ++ [(k, v)].
Proof.
  unfold keys. induction d as [|[k' v'] d IH]; simpl; intros Hin; [done|].
  apply not_elem_of_cons in Hin as [Hne Hin].
  rewrite decide_False by done. f_equal. by apply IH.
Qed.

Lemma keys_dict_set k v d :
  keys (dict_set k v d) = if decide (k ∈ keys d) then keys d else keys d ++ [k].
Proof.
  destruct (decide (k ∈ keys d)) as [Hin|Hin].
  - by apply keys_dict_set_present.
  - rewrite dict_set_absent by done. unfold keys. by rewrite fmap_app.
Qed.

Lemma NoDup_keys_dict_set k v d : NoDup (keys d) -> NoDup (keys (dict_set k v d)).
Proof.
  intros Hnd. rewrite keys_dict_set. destruct (decide (k ∈ keys d)); [done|].
  apply NoDup_app. split; [done|]. split; [|apply NoDup_singleton].
  intros x Hx Hx'. apply list_elem_of_singleton in Hx'. by subst.
Qed.

Lemma values_dict_set k v d x :
  x ∈ values (dict_set k v d) -> x = v \/ x ∈ values d.
Proof.
  unfold values. induction d as [|[k' v'] d IH]; simpl.
  - intros H. apply list_elem_of_singleton in H. by left.
  - destruct (decide (k = k')) as [->|Hne]; simpl; rewrite !elem_of_cons.
    + intros [->|H]; [by left|by right; right].
    + intros [->|H]; [by right; left|]. destruct (IH H); [by left|by right; right].
Qed.
End DictFacts.

(** * The registrars *)

Lemma new_deref c w :
  w_commands (final (new c w)) !! length (w_commands w) = Some c.
Proof. simpl. by apply list_lookup_middle. Qed.

(** C6: when a pre-load hook fails, [load] raises the failure of one of the
    failing hooks and stops there: the bot, the command objects and the
    loops are as they were, only the piece's reference to the bot is set. *)
Theorem C6_preload_failure_aborts_load w :
  Exists (fun hook => is_Some (call_hook hook)) (_pre_load_hooks (w_self w)) ->
  exists hook e,
    hook ∈ _pre_load_hooks (w_self w) /\ call_hook hook = Some e /\
    load w
    = Raise e (with_self (set_bot (Some (host_id (w_bot w))) (w_self w)) w) /\
    w_bot (final (load w)) = w_bot w /\
    w_commands (final (load w)) = w_commands w /\
    w_loops (final (load w)) = w_loops w.
Proof.
  intros HE.
  set (w1 := with_self (set_bot (Some (host_id (w_bot w))) (w_self w)) w).
  destruct (gather_fails _ w1 HE) as (hook & e & Hin & Hc & Hg).
  exists hook, e. split; [done|]. split; [done|].
  assert (Hl : load w = Raise e w1).
  { unfold load. unfold bind at 1. unfold assign at 1. cbv beta iota.
    fold w1. unfold bind at 1. unfold bind at 1. unfold attr at 1.
    cbv beta iota. change (_pre_load_hooks (w_self w1))
      with (_pre_load_hooks (w_self w)). by rewrite Hg. }
  by rewrite Hl.
Qed.

Lemma C6_preload_failure_aborts_load_witness :
  let w := final (load_hook false (failing_hook 2 "second" (UserError 7))
             (final (load_hook false (coroutine 1 "first")
                (final (slash_command None [] (coroutine 3 "ping")
                   (fresh_world "p" (empty_host 5 false))))))) in
  exists hook e,
    hook ∈ _pre_load_hooks (w_self w) /\ call_hook hook = Some e /\
    load w
    = Raise e (with_self (set_bot (Some (host_id (w_bot w))) (w_self w)) w) /\
    w_bot (final (load w)) = w_bot w /\
    w_commands (final (load w)) = w_commands w /\
    w_loops (final (load w)) = w_loops w.
Proof.
  intros w. apply (C6_preload_failure_aborts_load w).
  vm_compute. apply Exists_cons_tl, Exists_cons_hd. by eexists.
Defined.

(** C5, as the code has it: reading the bot raises [RuntimeError] exactly
    when the reference is unset, as it is on a new piece; every call of
    [load] records the bot it was given, whether it then returns or raises;
    [unload] leaves the reference alone. *)
Theorem C5_bot_reference w :
  (forall id nm ex, _bot (init id nm ex) = None) /\
  bot w = match _bot (w_self w) with
          | None => Raise RuntimeError w
          | Some b => Ok b w
          end /\
  _bot (w_self (final (load w))) = Some (host_id (w_bot w)) /\
  bot (final (load w)) = Ok (host_id (w_bot w)) (final (load w)) /\
  _bot (w_self (final (unload w))) = _bot (w_self w).
Proof.
  assert (Hb : forall w, bot w = match _bot (w_self w) with
                                 | None => Raise RuntimeError w
                                 | Some b => Ok b w
                                 end).
  { intros w'. unfold bot, bind, attr. by destruct (_bot (w_self w')). }
  split; [done|]. split; [apply Hb|]. split; [by rewrite load_self|].
  split; [by rewrite Hb, load_self|]. by rewrite unload_self.
Qed.

(** C5 does not hold as stated: a [load] that fails in a pre-load hook has
    already set the reference, and a later [load] on another bot replaces
    it. *)
Lemma C5_counterexample :
  let w := final (load_hook false (failing_hook 1 "hook" (UserError 0))
             (fresh_world "p" (empty_host 5 false))) in
  (exists w', load w = Raise (UserError 0) w' /\ bot w' = Ok 5 w') /\
  (let w2 := final (load (fresh_world "p" (empty_host 5 false))) in
   _bot (w_self w2) = Some 5 /\
   _bot (w_self (final (load (with_bot (empty_host 6 false) w2)))) = Some 6).
Proof. vm_compute. split; [by eexists|done]. Qed.

(** C4, at a new piece: the slot [_global_command_once_checks] was never
    assigned, so the registrar raises [AttributeError] and registers
    nothing; so does [load] on a [BotBase] host, after the prefix commands
    and the plain global checks were attached. *)
Theorem C4_global_command_check_once_on_new_piece
    (predicate : Check) id nm ex cmds ls h :
  let w := {| w_commands := cmds; w_loops := ls; w_self := init id nm ex;
              w_bot := h |} in
  global_command_check_once predicate w = Raise AttributeError w /\
  (exists w', load (fresh_world nm (empty_host id true)) = Raise AttributeError w').
Proof.
  split; [done|]. vm_compute. by eexists.
Qed.

(** C3, on the code: whatever is registered through [command], [group],
    [slash_command], [user_command] or [message_command] carries no
    ["piece"] entry in its extras, and [get_parent_piece] raises
    [LookupError] on it. *)
Theorem C3_registered_entry_has_no_owner w name cls kwargs id nm cs :
  let callback := {| cb_id := id; cb_name := nm; cb_is_coro := true;
                     cb_checks := cs; cb_raises := None |} in
  (r <- command name cls kwargs callback ;; get_parent_piece r) w
  = Raise LookupError (final (command name cls kwargs callback w)) /\
  (r <- group name cls kwargs callback ;; get_parent_piece r) w
  = Raise LookupError (final (group name cls kwargs callback w)) /\
  (r <- slash_command name [] callback ;; get_parent_piece r) w
  = Raise LookupError (final (slash_command name [] callback w)) /\
  (r <- user_command name [] callback ;; get_parent_piece r) w
  = Raise LookupError (final (user_command name [] callback w)) /\
  (r <- message_command name [] callback ;; get_parent_piece r) w
  = Raise LookupError (final (message_command name [] callback w)).
Proof.
  intros callback.
  unfold command, group, slash_command, user_command, message_command.
  simpl. unfold get_parent_piece, bind, new, assign, ret, deref. simpl.
  rewrite !list_lookup_middle by done. done.
Qed.

(** C10: the keyword arguments of [command] and [group] play no part: the
    call does what it does without them, the entry is constructed from the
    empty attribute dict, and that dict is not something [_apply_attrs]
    returns, whose result always holds the piece under ["extras"]. *)
Theorem C10_prefix_kwargs_inert name cls kwargs callback w :
  command name cls kwargs callback w = command name cls [] callback w /\
  group name cls kwargs callback w = group name cls [] callback w /\
  match command name cls kwargs callback w with
  | Ok r w' =>
      w_commands w' !! r
      = Some (construct Prefix (default AnyCommand cls) callback
                (name_or name callback) [])
  | Raise e w' => e = TypeError /\ w' = w
  end /\
  match group name cls kwargs callback w with
  | Ok r w' =>
      w_commands w' !! r
      = Some (construct Prefix (default AnyGroup cls) callback
                (name_or name callback) [])
  | Raise e w' => e = TypeError /\ w' = w
  end /\
  forall self attrs kw,
    match _apply_attrs self attrs kw with
    | inr new_attrs =>
        exists extras, dict_get "extras" new_attrs = Some (VDict extras) /\
                       is_Some (dict_get "piece" extras)
    | inl _ => True
    end.
Proof.
  split; [done|]. split; [done|].
  split; [|split].
  - unfold command. destruct (cb_is_coro callback); [|done].
    unfold bind, new, assign, ret. simpl.
    rewrite list_lookup_middle by done. by destruct cls.
  - unfold group. destruct (cb_is_coro callback); [|done].
    unfold bind, new, assign, ret. simpl.
    rewrite list_lookup_middle by done. by destruct cls.
  - intros self attrs kw. unfold _apply_attrs.
    destruct (dict_get "extras" (dict_setdefault _ _ _)) as [[| | | |e]|]; try done.
    eexists. split; [apply dict_get_set_eq|].
    set (e1 := dict_setdefault "piece" _ e).
    assert (H1 : is_Some (dict_get "piece" e1)).
    { unfold e1, dict_setdefault.
      destruct (dict_get "piece" e) eqn:E; [by rewrite E|].
      rewrite dict_get_set_eq. by eexists. }
    unfold dict_setdefault. destruct (dict_get "metadata" e1); [done|].
    by rewrite dict_get_set_ne.
Qed.

(** C9, as the code has it: the five command registrars raise [TypeError]
    on a callable that is not a coroutine function and leave the world as
    it was; the listener and hook registrars do not look: they append the
    callable and return it. *)
Theorem C9_non_coroutine_callables callback w :
  cb_is_coro callback = false ->
  (forall name cls kwargs,
     command name cls kwargs callback w = Raise TypeError w /\
     group name cls kwargs callback w = Raise TypeError w) /\
  (forall name attributes,
     slash_command name attributes callback w = Raise TypeError w /\
     user_command name attributes callback w = Raise TypeError w /\
     message_command name attributes callback w = Raise TypeError w) /\
  (forall event,
     listener event callback w
     = Ok callback
         (with_self
            (set_listeners
               (setdefault_append (default (cb_name callback) event) callback
                  (_listeners (w_self w))) (w_self w)) w)) /\
  load_hook false callback w
  = Ok callback
      (with_self (set_pre_load_hooks
                    (_pre_load_hooks (w_self w) ++ [callback]) (w_self w)) w) /\
  load_hook true callback w
  = Ok callback
      (with_self (set_post_load_hooks
                    (_post_load_hooks (w_self w) ++ [callback]) (w_self w)) w) /\
  unload_hook false callback w
  = Ok callback
      (with_self (set_pre_unload_hooks
                    (_pre_unload_hooks (w_self w) ++ [callback]) (w_self w)) w) /\
  unload_hook true callback w
  = Ok callback
      (with_self (set_post_unload_hooks
                    (_post_unload_hooks (w_self w) ++ [callback]) (w_self w)) w).
Proof.
  intros Hc.
  unfold command, group, slash_command, user_command, message_command.
  rewrite Hc. repeat split.
Qed.

Lemma C9_non_coroutine_callables_witness :
  let callback := plain_function 1 "on_message" in
  let w := fresh_world "p" (empty_host 5 true) in
  command None None [] callback w = Raise TypeError w /\
  (exists w', listener None callback w = Ok callback w' /\
              _listeners (w_self w') = [("on_message", [callback])]).
Proof.
  intros callback w.
  destruct (C9_non_coroutine_callables callback w eq_refl)
    as (Hcmd & _ & Hl & _).
  split; [apply (Hcmd None None [])|].
  eexists. split; [apply (Hl None)|done].
Defined.

(** C9 does not hold as stated: the listener registrar and the hook
    registrar accept a function that is not a coroutine function and
    register it. *)
Lemma C9_counterexample :
  let callback := plain_function 1 "on_message" in
  let w := fresh_world "p" (empty_host 5 true) in
  (exists w', listener None callback w = Ok callback w' /\
              _listeners (w_self w') <> _listeners (w_self w)) /\
  (exists w', load_hook false callback w = Ok callback w' /\
              _pre_load_hooks (w_self w') <> _pre_load_hooks (w_self w)).
Proof. vm_compute. split; by eexists. Qed.

(** * Attaching commands *)

Lemma forallb_elem {A} (f : A -> bool) l x : forallb f l = true -> x ∈ l -> f x = true.
Proof. intros H Hx. apply list_elem_of_In in Hx. by eapply forallb_forall in H. Qed.

Lemma all_kinds_elem k : k ∈ all_kinds.
Proof. unfold all_kinds. destruct k; repeat constructor. Qed.

Lemma entries_named_spec w k n r :
  entries_named w = true -> (n, r) ∈ registry k (w_self w) ->
  exists c, w_commands w !! r = Some c /\ cmd_name c = n.
Proof.
  intros H Hin. unfold entries_named in H.
  eapply forallb_elem in H; [|apply (all_kinds_elem k)].
  eapply forallb_elem in H; [|exact Hin].
  unfold filed_under in H. simpl in H.
  destruct (w_commands w !! r) as [c|]; [|done].
  exists c. split; [done|]. by apply bool_decide_eq_true_1 in H.
Qed.

Lemma elem_of_values {V} (d : dict V) v : v ∈ values d <-> exists k, (k, v) ∈ d.
Proof.
  unfold values. rewrite list_elem_of_fmap. split.
  - intros ([k v'] & -> & H). by exists k.
  - intros [k H]. by exists (k, v).
Qed.

Lemma elem_of_keys {V} (d : dict V) k : k ∈ keys d <-> exists v, (k, v) ∈ d.
Proof.
  unfold keys. rewrite list_elem_of_fmap. split.
  - intros ([k' v] & -> & H). by exists v.
  - intros [v H]. by exists (k, v).
Qed.

Lemma entries_distinct_spec p k k' n n' r :
  entries_distinct p = true ->
  (n, r) ∈ registry k p -> (n', r) ∈ registry k' p -> k = k'.
Proof.
  intros H Hin Hin'. apply bool_decide_eq_true_1 in H.
  assert (Hv : r ∈ values (registry k p)) by (apply elem_of_values; eauto).
  assert (Hv' : r ∈ values (registry k' p)) by (apply elem_of_values; eauto).
  clear Hin Hin'. unfold all_kinds in H. simpl in H. rewrite app_nil_r in H.
  apply NoDup_app in H as (_ & H1 & H). apply NoDup_app in H as (_ & H2 & H).
  apply NoDup_app in H as (_ & H3 & _).
  destruct k, k'; try done; simpl in *; exfalso;
    first [ by eapply H1; [eassumption|rewrite ?elem_of_app; auto]
          | by eapply H2; [eassumption|rewrite ?elem_of_app; auto]
          | by eapply H3; [eassumption|rewrite ?elem_of_app; auto] ].
Qed.

Lemma unattached_spec w k r :
  unattached w = true -> r ∈ values (registry k (w_self w)) ->
  r ∉ values (host_table k (w_bot w)).
Proof.
  intros H Hin. unfold unattached in H.
  eapply forallb_elem in H; [|apply (all_kinds_elem k)].
  eapply forallb_elem in H; [|exact Hin]. by apply bool_decide_eq_true_1 in H.
Qed.

Lemma host_table_set k k' v h :
  host_table k' (set_host_table k v h) = if decide (k = k') then v else host_table k' h.
Proof. by destruct k, k'. Qed.

Section Attach.
Context (p : Piece) (w0 : World).
Hypothesis Hself : forall k, registry k (w_self w0) = registry k p /\
                             kind_checks k (w_self w0) = kind_checks k p.
Hypothesis Hnamed : entries_named w0 = true.
Hypothesis Hdist : entries_distinct p = true.

Lemma attach_preserves k x :
  x ∈ values (registry k p) ->
  preserves (attach_inv p (w_commands w0))
    (bot_add_command k x ;;
     (cc <- attr (kind_checks k) ;; _prepend_plugin_checks cc x)).
Proof.
  intros Hx w [Hreg He]. apply elem_of_values in Hx as [n Hx].
  assert (Hx0 : (n, x) ∈ registry k (w_self w0)) by by rewrite (proj1 (Hself k)).
  destruct (entries_named_spec _ _ _ _ Hnamed Hx0) as (c0 & Hc0 & Hn).
  unfold bot_add_command, bind, deref.
  destruct (He k n x c0 Hx Hc0) as [[Hun Hl]|[Hat Hl]]; rewrite Hl.
  2:{ (* already attached: the name is taken *)
    unfold try_on_bot, add_command.
    assert (cmd_name (prepended (kind_checks k p) c0) = n) as ->.
    { unfold prepended. by destruct (kind_checks k p). }
    destruct (dict_get n (host_table k (w_bot w))) eqn:E; simpl; [done|].
    apply dict_get_None in E. exfalso. apply E. apply elem_of_keys. eauto. }
  rewrite Hn. unfold try_on_bot, add_command.
  destruct (dict_get n (host_table k (w_bot w))) eqn:E; simpl; [done|].
  apply dict_get_None in E. rewrite dict_set_absent by done.
  unfold attr. simpl. rewrite (proj2 (Hreg k)).
  set (h' := set_host_table k _ _).
  assert (Hfin : forall w', w_self w' = w_self w -> w_bot w' = h' ->
            (forall r, w_commands w' !! r =
               if decide (r = x) then Some (prepended (kind_checks k p) c0)
               else w_commands w !! r) ->
            attach_inv p (w_commands w0) w').
  { intros w' Hs Hb Hc. split; [by rewrite Hs|].
    intros k' n' r c0' Hin Hc0'. rewrite Hb, Hc. unfold h'.
    rewrite host_table_set.
    destruct (decide (r = x)) as [->|Hne].
    - assert (k' = k) as -> by by eapply entries_distinct_spec.
      rewrite decide_True by done.
      assert (c0' = c0) as -> by congruence.
      assert (Hin0 : (n', x) ∈ registry k (w_self w0)) by by rewrite (proj1 (Hself k)).
      destruct (entries_named_spec _ _ _ _ Hnamed Hin0) as (c1 & Hc1 & Hn1).
      assert (c1 = c0) as -> by congruence.
      right. split; [|done]. rewrite <- Hn1, Hn.
      apply elem_of_app. right. by apply list_elem_of_singleton.
    - destruct (He k' n' r c0' Hin Hc0') as [[Hun' Hl']|[Hat' Hl']].
      + left. split; [|done]. destruct (decide (k = k')) as [->|]; [|done].
        unfold values. rewrite fmap_app. apply not_elem_of_app. split; [done|].
        simpl. by intros ?%list_elem_of_singleton.
      + right. split; [|done]. destruct (decide (k = k')) as [->|]; [|done].
        apply elem_of_app. by left. }
  unfold _prepend_plugin_checks.
  destruct (kind_checks k p) as [|g cs] eqn:Ecc.
  - simpl. apply Hfin; [done|done|]. intros r. simpl.
    by destruct (decide (r = x)) as [->|].
  - unfold update. simpl. rewrite Hl. simpl. apply Hfin; [done|done|].
    intros r. simpl. destruct (decide (r = x)) as [->|Hne].
    + rewrite list_lookup_insert_eq; [done|]. by eapply lookup_lt_Some.
    + by rewrite list_lookup_insert_ne.
Qed.
End Attach.

(** * The checks of an entry after [load] *)

Lemma preserves_attr_bind {A B} (P : World -> Prop) (f : Piece -> A) (k : A -> M B) :
  (forall w, P w -> preserves P (k (f (w_self w)))) ->
  preserves P (bind (attr f) k).
Proof. intros H w HP. unfold bind, attr. by apply (H w HP w HP). Qed.

Lemma preserves_assign_bot (P : World -> Prop) :
  (forall w v, P w -> P (with_self (set_bot v (w_self w)) w)) ->
  preserves P (fun w => assign (set_bot (Some (host_id (w_bot w)))) w).
Proof. intros H w HP. by apply H. Qed.

Lemma attach_inv_frame p cmds0 w w' :
  w_self w' = w_self w ->
  (forall k, host_table k (w_bot w') = host_table k (w_bot w)) ->
  w_commands w' = w_commands w ->
  attach_inv p cmds0 w -> attach_inv p cmds0 w'.
Proof.
  intros Hs Hb Hc [Hreg He]. split; [by rewrite Hs|].
  intros k n r c0 Hin Hc0. rewrite Hb, Hc. by apply He.
Qed.

Ltac frame_leaf :=
  first
    [ apply preserves_on_bot; intros ? ?; eapply attach_inv_frame;
      [| |reflexivity|eassumption]; [reflexivity|]; intros []; reflexivity
    | apply preserves_try_on_bot; intros ? ? ? Hf; unfold add_listener in Hf;
      destruct (cb_is_coro _); simplify_eq; eapply attach_inv_frame;
      [| |reflexivity|eassumption]; [reflexivity|]; intros []; reflexivity
    | apply preserves_update_loop; intros ? ? ? ?; eapply attach_inv_frame;
      [| |reflexivity|eassumption]; [reflexivity|]; intros []; reflexivity ].

Section Load.
Context (w0 : World).
Hypothesis Hnamed : entries_named w0 = true.
Hypothesis Hdist : entries_distinct (w_self w0) = true.

Lemma attach_stage k :
  preserves (attach_inv (w_self w0) (w_commands w0))
    (cs <- attr (registry k) ;;
     for_each (values cs) (fun command =>
       bot_add_command k command ;;
       (cc <- attr (kind_checks k) ;; _prepend_plugin_checks cc command))).
Proof.
  apply preserves_attr_bind. intros w [Hreg He].
  rewrite (proj1 (Hreg k)). apply preserves_for_each. intros x Hx.
  by apply (attach_preserves (w_self w0) w0).
Qed.

Lemma load_attach_inv :
  preserves (attach_inv (w_self w0) (w_commands w0)) load.
Proof.
  unfold load.
  apply preserves_bind; [|intros _].
  { apply preserves_assign_bot. intros w v [Hreg He]. split; [|done].
    intros k. destruct (Hreg k). by destruct k. }
  preserves_with
    ltac:(first [ apply (attach_stage Prefix) | apply (attach_stage Slash)
                | apply (attach_stage User) | apply (attach_stage Message)
                | frame_leaf ]).
Qed.
End Load.

Lemma attach_inv_init w :
  unattached w = true -> attach_inv (w_self w) (w_commands w) w.
Proof.
  intros Hun. split; [done|]. intros k n r c0 Hin Hc0. left. split; [|done].
  apply unattached_spec; [done|]. apply elem_of_values. eauto.
Qed.

Lemma prepended_checks cs c : checks (prepended cs c) = cs ++ checks c.
Proof. by destruct cs. Qed.

(** C7, as the code has it: [load] changes nothing of the piece but its
    reference to the bot, so the registries and all check sequences are as
    they were.  The command object a registry holds is the object the host
    receives: once on the host it holds the checks of its kind followed by
    its former checks; while not on the host it is untouched. *)
Theorem C7_registry_after_load w k n r c0 :
  entries_named w = true -> entries_distinct (w_self w) = true ->
  unattached w = true ->
  (n, r) ∈ registry k (w_self w) -> w_commands w !! r = Some c0 ->
  w_self (final (load w)) = set_bot (Some (host_id (w_bot w))) (w_self w) /\
  (n, r) ∈ registry k (w_self (final (load w))) /\
  (((r ∉ values (host_table k (w_bot (final (load w))))) /\
    w_commands (final (load w)) !! r = Some c0) \/
   ((n, r) ∈ host_table k (w_bot (final (load w))) /\
    w_commands (final (load w)) !! r
    = Some (prepended (kind_checks k (w_self w)) c0))).
Proof.
  intros Hn Hd Hu Hin Hc0. split; [apply load_self|].
  destruct (load_attach_inv w Hn Hd w (attach_inv_init w Hu)) as [Hreg He].
  split; [by rewrite (proj1 (Hreg k))|]. by apply He.
Qed.

Lemma C7_registry_after_load_witness :
  let w := checked_world (empty_host 5 false) in
  exists c0,
    w_commands w !! 1 = Some c0 /\ checks c0 = [3] /\
    ("pong", 1) ∈ _slash_commands (w_self (final (load w))) /\
    ("pong", 1) ∈ all_slash_commands (w_bot (final (load w))) /\
    w_commands (final (load w)) !! 1 = Some (set_checks [9; 3] c0).
Proof.
  intros w. eexists. split; [reflexivity|]. split; [reflexivity|].
  edestruct (C7_registry_after_load w Slash "pong" 1) as (_ & Hreg & Hst);
    [reflexivity|reflexivity|reflexivity| |reflexivity|].
  { vm_compute. apply list_elem_of_singleton. reflexivity. }
  split; [exact Hreg|].
  destruct Hst as [[Hun _]|[Hat Hl]]; [|by split].
  exfalso. apply Hun. vm_compute. apply list_elem_of_singleton. reflexivity.
Defined.

(** C7 does not hold as stated: after [load] the entry the registry holds
    no longer has its original check list, and what is on the host is that
    very entry, not a copy. *)
Lemma C7_counterexample :
  let w := checked_world (empty_host 5 false) in
  let w' := final (load w) in
  load w = Ok tt w' /\
  dict_get "pong" (_slash_commands (w_self w')) = Some 1 /\
  dict_get "pong" (all_slash_commands (w_bot w')) = Some 1 /\
  checks <$> w_commands w !! 1 = Some [3] /\
  checks <$> w_commands w' !! 1 = Some [9; 3].
Proof. vm_compute. repeat split. Qed.

(** * Attaching the commands of a kind *)

Lemma final_bind_ok {A B} (m : M A) (k : A -> M B) w a w1 :
  m w = Ok a w1 -> final (bind m k w) = final (k a w1).
Proof. intros H. by rewrite final_bind, H. Qed.

Lemma bind_assoc {A B C} (m : M A) (k : A -> M B) (k' : B -> M C) w :
  bind (bind m k) k' w = bind m (fun a => bind (k a) k') w.
Proof. unfold bind. by destruct (m w). Qed.

Lemma bind_if_bot_base {A B} (m1 m2 : M A) (k : A -> M B) w :
  bind (fun w => (if is_bot_base (w_bot w) then m1 else m2) w) k w
  = bind (if is_bot_base (w_bot w) then m1 else m2) k w.
Proof. done. Qed.

Lemma set_host_table_twice k v1 v2 h :
  set_host_table k v2 (set_host_table k v1 h) = set_host_table k v2 h.
Proof. by destruct k. Qed.

Lemma host_table_set_eq k v h : host_table k (set_host_table k v h) = v.
Proof. by destruct k. Qed.


Lemma names_lookup w (r : CmdRef) n :
  names w !! r = Some n <-> exists c, w_commands w !! r = Some c /\ cmd_name c = n.
Proof.
  unfold names. rewrite list_lookup_fmap. destruct (w_commands w !! r) as [c|]; simpl.
  - split; [intros [= Hn]; eauto|]. intros (c' & Hc' & <-). congruence.
  - split; [done|]. by intros (c' & ? & _).
Qed.


Lemma attach_spec k n (r : CmdRef) w :
  names w !! r = Some n ->
  match attach k r w with
  | Ok _ w' =>
      (n ∉ keys (host_table k (w_bot w))) /\
      w_bot w' = set_host_table k (host_table k (w_bot w) ++ [(n, r)]) (w_bot w) /\
      w_self w' = w_self w /\ w_loops w' = w_loops w /\ names w' = names w
  | Raise _ w' => n ∈ keys (host_table k (w_bot w))
  end.
Proof.
  intros Hn. apply names_lookup in Hn as (c & Hc & <-).
  unfold attach, bot_add_command, bind, deref. cbv beta. rewrite Hc.
  unfold try_on_bot, add_command.
  destruct (dict_get (cmd_name c) (host_table k (w_bot w))) eqn:E; simpl.
  { apply elem_of_keys. apply dict_get_Some_elem in E. eauto. }
  apply dict_get_None in E. rewrite dict_set_absent by done.
  unfold _prepend_plugin_checks.
  destruct (kind_checks k (w_self w)) as [|g cs]; simpl; [done|].
  unfold update. simpl. rewrite Hc. simpl. repeat split; try done.
  unfold names. simpl. rewrite list_fmap_insert. simpl.
  apply list_insert_id. rewrite list_lookup_fmap. by rewrite Hc.
Qed.

Lemma attach_loop_spec k (es : dict CmdRef) w :
  (forall n r, (n, r) ∈ es -> names w !! r = Some n) ->
  match for_each (values es) (attach k) w with
  | Ok _ w' =>
      NoDup (keys es) /\
      (forall n, n ∈ keys es -> n ∉ keys (host_table k (w_bot w))) /\
      w_bot w' = set_host_table k (host_table k (w_bot w) ++ es) (w_bot w) /\
      w_self w' = w_self w /\ w_loops w' = w_loops w /\ names w' = names w
  | Raise _ w' =>
      ~ (NoDup (keys es) /\
         forall n, n ∈ keys es -> n ∉ keys (host_table k (w_bot w)))
  end.
Proof.
  revert w. induction es as [|[n r] es IH]; intros w Hlive.
  - simpl. split; [constructor|]. split; [by intros n ?%elem_of_nil|].
    rewrite app_nil_r. by destruct k, (w_bot w).
  - change (values ((n, r) :: es)) with (r :: values es). simpl.
    unfold bind at 1.
    pose proof (attach_spec k n r w (Hlive n r ltac:(left))) as Ha.
    destruct (attach k r w) as [[] w1|e w1].
    2:{ intros [_ Hf]. apply (Hf n); [left|done]. }
    destruct Ha as (Hfresh & Hb & Hs & Hl & Hnm).
    specialize (IH w1). rewrite Hnm in IH.
    specialize (IH (fun n' r' H => Hlive n' r' ltac:(by right))).
    assert (Hk : keys (host_table k (w_bot w1)) = keys (host_table k (w_bot w)) ++ [n]).
    { rewrite Hb, host_table_set_eq. unfold keys. by rewrite fmap_app. }
    destruct (for_each (values es) (attach k) w1) as [[] w'|e w'].
    + destruct IH as (Hnd & Hfr & Hb' & Hs' & Hl' & Hnm').
      split. { apply NoDup_cons. split; [|done]. intros Hin.
               apply (Hfr n Hin). rewrite Hk. apply elem_of_app. right.
               by apply list_elem_of_singleton. }
      split. { intros n' [->|Hin]%elem_of_cons; [done|].
               specialize (Hfr n' Hin). rewrite Hk in Hfr.
               by apply not_elem_of_app in Hfr as [? _]. }
      rewrite Hb', Hb, host_table_set_eq, set_host_table_twice, <- app_assoc.
      split; [done|]. split; [congruence|]. split; congruence.
    + intros [Hnd Hfr]. apply IH. apply NoDup_cons in Hnd as [Hn Hnd].
      split; [done|]. intros n' Hin. rewrite Hk. apply not_elem_of_app.
      split; [apply Hfr; by right|]. intros ->%list_elem_of_singleton. done.
Qed.

(** A property of the bot that the calls of [load] after the prefix
    commands, and those of [unload], do not disturb. *)
Ltac bot_leaf :=
  first
    [ apply preserves_on_bot; intros ? ?; simpl; assumption
    | apply preserves_try_on_bot; intros ? ? ? Hf;
      first [ unfold add_listener in Hf; destruct (cb_is_coro _)
            | unfold add_command in Hf; destruct (dict_get _ _) ];
      simplify_eq; simpl; assumption
    | apply preserves_update; intros ? ? ? ?; assumption
    | apply preserves_update_loop; intros ? ? ? ?; assumption ].

Lemma load_prefix_table w :
  is_bot_base (w_bot w) = true ->
  Forall (fun hook => call_hook hook = None) (_pre_load_hooks (w_self w)) ->
  (forall n r, (n, r) ∈ _commands (w_self w) -> names w !! r = Some n) ->
  NoDup (keys (_commands (w_self w))) ->
  (forall n, n ∈ keys (_commands (w_self w)) -> n ∉ keys (all_commands (w_bot w))) ->
  all_commands (w_bot (final (load w)))
  = all_commands (w_bot w) ++ _commands (w_self w).
Proof.
  intros Hbb Hhooks Hlive Hnd Hfresh. unfold load.
  set (w1 := with_self (set_bot (Some (host_id (w_bot w))) (w_self w)) w).
  rewrite (final_bind_ok _ _ w tt w1) by done.
  rewrite (final_bind_ok _ _ w1 tt w1)
    by (unfold bind, attr; by apply gather_succeeds).
  rewrite bind_if_bot_base. change (is_bot_base (w_bot w1)) with (is_bot_base (w_bot w)).
  rewrite Hbb, bind_assoc.
  pose proof (attach_loop_spec Prefix (_commands (w_self w)) w1 Hlive) as Hloop.
  destruct (for_each (values (_commands (w_self w))) (attach Prefix) w1)
    as [[] w2|e w2] eqn:E; [|by destruct Hloop].
  destruct Hloop as (_ & _ & Hb & _).
  rewrite (final_bind_ok _ _ w1 tt w2) by exact E.
  transitivity (all_commands (w_bot w2)); [|by rewrite Hb].
  by_preservation (fun w' => all_commands (w_bot w') = all_commands (w_bot w2)).
  preserves_with bot_leaf.
Qed.

(** * Registering under a name that is taken *)

Lemma elem_of_dict_set {V} k (v : V) d n x :
  (n, x) ∈ dict_set k v d -> (n = k /\ x = v) \/ (n, x) ∈ d.
Proof.
  induction d as [|[k' v'] d IH]; simpl.
  - intros [= -> ->]%list_elem_of_singleton. by left.
  - destruct (decide (k = k')) as [->|Hne]; rewrite !elem_of_cons.
    + intros [[= -> ->]|H]; [by left|by right; right].
    + intros [[= -> ->]|H]; [by right; left|].
      destruct (IH H); [by left|by right; right].
Qed.

Lemma final_bind_raise {A B} (m : M A) (k : A -> M B) w e w1 :
  m w = Raise e w1 -> final (bind m k w) = w1.
Proof. intros H. by rewrite final_bind, H. Qed.

Lemma dict_get_app_r {V} k (d1 d2 : dict V) :
  k ∉ keys d1 -> dict_get k (d1 ++ d2) = dict_get k d2.
Proof.
  unfold keys. induction d1 as [|[k' v'] d1 IH]; simpl; intros Hk; [done|].
  apply not_elem_of_cons in Hk as [Hne Hk]. rewrite decide_False by done.
  by apply IH.
Qed.

Lemma attach_raise k (r : nat) w e w' : attach k r w = Raise e w' -> w' = w.
Proof.
  unfold attach, bot_add_command, bind, deref, try_on_bot, attr,
    _prepend_plugin_checks, update.
  destruct (w_commands w !! r) as [c|] eqn:Hc; [|by intros [= _ <-]].
  destruct (add_command k (cmd_name c) r (w_bot w)) as [e'|h]; [by intros [= _ <-]|].
  simpl. destruct (kind_checks k (w_self w)); [done|]. simpl. by rewrite Hc.
Qed.

Lemma attach_loop_prefix k (es : dict nat) w :
  (forall n r, (n, r) ∈ es -> names w !! r = Some n) ->
  exists i,
    host_table k (w_bot (final (for_each (values es) (attach k) w)))
    = host_table k (w_bot w) ++ take i es.
Proof.
  revert w. induction es as [|[n r] es IH]; intros w Hlive.
  - exists 0. simpl. by rewrite app_nil_r.
  - change (values ((n, r) :: es)) with (r :: values es). simpl.
    rewrite final_bind.
    pose proof (attach_spec k n r w (Hlive n r ltac:(left))) as Ha.
    destruct (attach k r w) as [[] w1|e w1] eqn:E.
    + destruct Ha as (_ & Hb & _ & _ & Hnm).
      destruct (IH w1) as [i Hi].
      { intros n' r' Hin. rewrite Hnm. apply Hlive. by right. }
      exists (S i). rewrite Hi, Hb, host_table_set_eq, <- app_assoc. done.
    + apply attach_raise in E as ->. exists 0. simpl. by rewrite app_nil_r.
Qed.

Lemma load_prefix_table_part w :
  (forall n r, (n, r) ∈ _commands (w_self w) -> names w !! r = Some n) ->
  exists i,
    all_commands (w_bot (final (load w)))
    = all_commands (w_bot w) ++ take i (_commands (w_self w)).
Proof.
  intros Hlive. unfold load.
  set (w1 := with_self (set_bot (Some (host_id (w_bot w))) (w_self w)) w).
  rewrite (final_bind_ok _ _ w tt w1) by done.
  destruct (gather_spec (_pre_load_hooks (w_self w1)) w1)
    as [[Hg _]|(hook & e & _ & _ & Hg)].
  2:{ rewrite (final_bind_raise _ _ w1 e w1)
        by (unfold bind, attr; cbv beta iota; by rewrite Hg).
      exists 0. simpl. by rewrite app_nil_r. }
  rewrite (final_bind_ok _ _ w1 tt w1) by (unfold bind, attr; exact Hg).
  rewrite bind_if_bot_base.
  change (is_bot_base (w_bot w1)) with (is_bot_base (w_bot w)).
  destruct (is_bot_base (w_bot w)) eqn:Hbb.
  - rewrite bind_assoc.
    destruct (attach_loop_prefix Prefix (_commands (w_self w)) w1 Hlive)
      as [i Hi].
    exists i.
    destruct (for_each (values (_commands (w_self w))) (attach Prefix) w1)
      as [[] w2|e w2] eqn:E.
    + rewrite (final_bind_ok _ _ w1 tt w2) by exact E.
      transitivity (all_commands (w_bot w2)); [|exact Hi].
      by_preservation (fun w' => all_commands (w_bot w') = all_commands (w_bot w2)).
      preserves_with bot_leaf.
    + rewrite (final_bind_raise _ _ w1 e w2) by exact E. exact Hi.
  - exists 0. simpl. rewrite app_nil_r.
    rewrite (final_bind_ok _ _ w1 tt w1) by done.
    by_preservation (fun w' => all_commands (w_bot w') = all_commands (w_bot w)).
    preserves_with bot_leaf.
Qed.

Lemma entries_named_intro w :
  (forall k n r, (n, r) ∈ registry k (w_self w) ->
     exists c, w_commands w !! r = Some c /\ cmd_name c = n) ->
  entries_named w = true.
Proof.
  intros H. unfold entries_named. apply forallb_forall. intros k _.
  apply forallb_forall. intros [n r] Hin%list_elem_of_In.
  destruct (H k n r Hin) as (c & Hc & Hn). unfold filed_under. simpl.
  rewrite Hc. by apply bool_decide_eq_true_2.
Qed.

Lemma registry_set_registry k k' v p :
  registry k' (set_registry k v p) = if decide (k = k') then v else registry k' p.
Proof. by destruct k, k'. Qed.

Lemma registered_named k c w :
  entries_named w = true -> entries_named (registered k c w) = true.
Proof.
  intros Hn. apply entries_named_intro. intros k' n r. unfold registered. simpl.
  rewrite registry_set_registry. intros Hin.
  assert (Hold : (n, r) ∈ registry k' (w_self w) ->
            exists c0, (w_commands w ++ [c]) !! r = Some c0 /\ cmd_name c0 = n).
  { intros Hin'.
    destruct (entries_named_spec w k' n r Hn Hin') as (c' & Hc' & Hn').
    exists c'. split; [|done]. by apply lookup_app_l_Some. }
  destruct (decide (k = k')) as [<-|Hne]; [|by apply Hold].
  apply elem_of_dict_set in Hin as [[-> ->]|Hin]; [|by apply Hold].
  exists c. split; [by apply list_lookup_middle|done].
Qed.

Lemma register_prefix_registered grp name cls kwargs callback w :
  cb_is_coro callback = true ->
  register_prefix grp name cls kwargs callback w
  = Ok (length (w_commands w))
      (registered Prefix
         (construct Prefix (default (if grp then AnyGroup else AnyCommand) cls)
            callback (name_or name callback) []) w).
Proof.
  intros Hc. unfold register_prefix, group, command. rewrite Hc.
  by destruct grp, cls.
Qed.

Lemma grown_refl w : grown w w.
Proof. by repeat split. Qed.

Lemma grown_trans w1 w2 w3 : grown w1 w2 -> grown w2 w3 -> grown w1 w3.
Proof.
  intros (H1 & H2 & H3 & H4) (H1' & H2' & H3' & H4').
  split; [by etrans|]. split; [by etrans|]. split; [by etrans|by etrans].
Qed.

Lemma commands_registered c w :
  _commands (w_self (registered Prefix c w))
  = dict_set (cmd_name c) (length (w_commands w)) (_commands (w_self w)).
Proof. done. Qed.

Lemma grown_registered c w : grown w (registered Prefix c w).
Proof.
  split; [by exists [c]|]. split; [|done].
  rewrite commands_registered, keys_dict_set.
  destruct (decide _); [done|]. by apply prefix_app_r.
Qed.

Lemma register_each_spec regs w :
  Forall (fun reg => cb_is_coro reg.2 = true) regs ->
  entries_named w = true -> NoDup (keys (_commands (w_self w))) ->
  exists w',
    register_each regs w = Ok tt w' /\ grown w w' /\
    entries_named w' = true /\ NoDup (keys (_commands (w_self w'))).
Proof.
  unfold register_each. revert w.
  induction regs as [|[[[[grp name] cls] kwargs] callback] regs IH];
    intros w Hc Hn Hnd.
  - exists w. split; [done|]. split; [apply grown_refl|done].
  - apply Forall_cons in Hc as [Hc Hcs]. simpl in Hc.
    cbn [for_each]. unfold bind at 1 2.
    rewrite (register_prefix_registered grp name cls kwargs callback w Hc).
    cbv beta iota. unfold ret at 1.
    set (c := construct _ _ _ _ _).
    destruct (IH (registered Prefix c w) Hcs) as (w' & Hr & Hg & Hn' & Hnd').
    { by apply registered_named. }
    { rewrite commands_registered. by apply NoDup_keys_dict_set. }
    exists w'. split; [exact Hr|]. split; [|done].
    eapply grown_trans; [apply grown_registered|exact Hg].
Qed.

Lemma elem_of_dict_set_NoDup {V} k (v : V) d n x :
  NoDup (keys d) -> (n, x) ∈ dict_set k v d ->
  (n = k /\ x = v) \/ (n <> k /\ (n, x) ∈ d).
Proof.
  intros Hnd Hin. destruct (decide (n = k)) as [->|Hne].
  - left. split; [done|].
    apply (dict_get_elem _ _ _ (NoDup_keys_dict_set k v d Hnd)) in Hin.
    rewrite dict_get_set_eq in Hin. by injection Hin.
  - right. split; [done|]. apply elem_of_dict_set in Hin as [[? _]|?]; done.
Qed.

Lemma register_each_keeps q regs w :
  Forall (fun reg => cb_is_coro reg.2 = true /\ reg_name reg <> q) regs ->
  dict_get q (_commands (w_self (final (register_each regs w))))
  = dict_get q (_commands (w_self w)).
Proof.
  unfold register_each. revert w.
  induction regs as [|[[[[grp name] cls] kwargs] callback] regs IH];
    intros w Hc; [done|].
  apply Forall_cons in Hc as [[Hc Hq] Hcs]. unfold reg_name in Hq.
  simpl in Hc, Hq.
  cbn [for_each]. rewrite final_bind. unfold bind at 1.
  rewrite (register_prefix_registered grp name cls kwargs callback w Hc).
  cbv beta iota. unfold ret at 1. rewrite IH by done.
  rewrite commands_registered. by apply dict_get_set_ne.
Qed.

(** C8: two ordinary commands registered under one qualified name, each
    through [command] or through [group], with any registrations of
    ordinary commands in between, get two different command objects.
    After the second registration the name leads to the second object and
    the first is in the registry no more.  The keys of the
    registry are free of duplicates after every registration.  Registering
    the name again changes neither the keys nor their order nor any other
    entry: the name stays where the first registration put it, also when
    other names were registered after it.  The registrations leave the
    host alone.  Whatever [load] then attaches is an initial part of the
    registry, so that [load] never attaches the first object; on a
    [BotBase] host whose pre-load hooks succeed and on which none of the
    registry's names is taken, the host's prefix table becomes its former
    table followed by the registry, and the name leads to the second
    object. *)
Theorem C8_overwrite_by_name
    w grp1 grp2 name1 name2 cls1 cls2 kw1 kw2 cb1 cb2 between :
  cb_is_coro cb1 = true -> cb_is_coro cb2 = true ->
  name_or name1 cb1 = name_or name2 cb2 ->
  Forall (fun reg => cb_is_coro reg.2 = true) between ->
  entries_named w = true ->
  NoDup (keys (_commands (w_self w))) ->
  exists r1 w1 wb r2 w2,
    register_prefix grp1 name1 cls1 kw1 cb1 w = Ok r1 w1 /\
    register_each between w1 = Ok tt wb /\
    register_prefix grp2 name2 cls2 kw2 cb2 wb = Ok r2 w2 /\
    r1 <> r2 /\
    dict_get (name_or name2 cb2) (_commands (w_self w1)) = Some r1 /\
    (Forall (fun reg => reg_name reg <> name_or name2 cb2) between ->
     dict_get (name_or name2 cb2) (_commands (w_self wb)) = Some r1) /\
    dict_get (name_or name2 cb2) (_commands (w_self w2)) = Some r2 /\
    (r1 ∉ values (_commands (w_self w2))) /\
    NoDup (keys (_commands (w_self w1))) /\
    (forall pre, pre `prefix_of` between ->
       NoDup (keys (_commands (w_self (final (register_each pre w1)))))) /\
    NoDup (keys (_commands (w_self w2))) /\
    keys (_commands (w_self w1)) `prefix_of` keys (_commands (w_self wb)) /\
    keys (_commands (w_self w2)) = keys (_commands (w_self wb)) /\
    (forall n, n <> name_or name2 cb2 ->
       dict_get n (_commands (w_self w2)) = dict_get n (_commands (w_self wb))) /\
    w_bot w2 = w_bot w /\
    (exists i,
       all_commands (w_bot (final (load w2)))
       = all_commands (w_bot w) ++ take i (_commands (w_self w2))) /\
    (r1 ∉ values (all_commands (w_bot w)) ->
     r1 ∉ values (all_commands (w_bot (final (load w2))))) /\
    (is_bot_base (w_bot w) = true ->
     Forall (fun hook => call_hook hook = None) (_pre_load_hooks (w_self w)) ->
     (forall n, n ∈ keys (_commands (w_self w2)) ->
                n ∉ keys (all_commands (w_bot w))) ->
     all_commands (w_bot (final (load w2)))
     = all_commands (w_bot w) ++ _commands (w_self w2) /\
     dict_get (name_or name2 cb2) (all_commands (w_bot (final (load w2))))
     = Some r2).
Proof.
  intros Hc1 Hc2 Hq Hcs Hnamed Hnd.
  set (q := name_or name2 cb2) in *.
  set (c1 := construct Prefix
               (default (if grp1 then AnyGroup else AnyCommand) cls1) cb1
               (name_or name1 cb1) []).
  set (w1 := registered Prefix c1 w).
  assert (Hn1 : entries_named w1 = true) by by apply registered_named.
  assert (Hnd1 : NoDup (keys (_commands (w_self w1)))).
  { unfold w1. rewrite commands_registered. by apply NoDup_keys_dict_set. }
  destruct (register_each_spec between w1 Hcs Hn1 Hnd1)
    as (wb & Hrun & (Hgc & Hgk & Hgb & Hgh) & Hnb & Hndb).
  set (c2 := construct Prefix
               (default (if grp2 then AnyGroup else AnyCommand) cls2) cb2
               q []).
  set (w2 := registered Prefix c2 wb).
  assert (Hn2 : entries_named w2 = true) by by apply registered_named.
  assert (Hnd2 : NoDup (keys (_commands (w_self w2)))).
  { unfold w2. rewrite commands_registered. by apply NoDup_keys_dict_set. }
  set (r1 := length (w_commands w)). set (r2 := length (w_commands wb)).
  assert (Hr1 : w_commands wb !! r1 = Some c1).
  { eapply prefix_lookup_Some; [|exact Hgc]. by apply list_lookup_middle. }
  assert (Hlt : r1 < r2) by by eapply lookup_lt_Some.
  assert (Hq1 : dict_get q (_commands (w_self w1)) = Some r1).
  { unfold w1. rewrite commands_registered. simpl. rewrite Hq.
    apply dict_get_set_eq. }
  assert (Hq2 : dict_get q (_commands (w_self w2)) = Some r2).
  { unfold w2. rewrite commands_registered. apply dict_get_set_eq. }
  assert (Hqb : q ∈ keys (_commands (w_self wb))).
  { eapply elem_of_prefix; [|exact Hgk]. apply elem_of_keys. exists r1.
    by apply dict_get_Some_elem. }
  assert (Hout : r1 ∉ values (_commands (w_self w2))).
  { intros [n Hin]%elem_of_values. unfold w2 in Hin.
    rewrite commands_registered in Hin.
    destruct (elem_of_dict_set_NoDup _ _ _ _ _ Hndb Hin)
      as [[_ Heq]|[Hne Hin']].
    { unfold r2 in Hlt. lia. }
    destruct (entries_named_spec wb Prefix n r1 Hnb Hin') as (c & Hc & Hn).
    rewrite Hr1 in Hc. injection Hc as <-. apply Hne. rewrite <- Hn.
    simpl. exact Hq. }
  assert (Hb2 : w_bot w2 = w_bot w) by exact Hgb.
  assert (Hlive : forall n r, (n, r) ∈ _commands (w_self w2) ->
                              names w2 !! r = Some n).
  { intros n r Hin. apply names_lookup.
    exact (entries_named_spec w2 Prefix n r Hn2 Hin). }
  destruct (load_prefix_table_part w2 Hlive) as [i Hi]. rewrite Hb2 in Hi.
  exists r1, w1, wb, r2, w2.
  split; [by apply register_prefix_registered|]. split; [exact Hrun|].
  split; [by apply register_prefix_registered|]. split; [lia|].
  split; [exact Hq1|].
  split.
  { intros Hne. rewrite <- Hq1.
    replace wb with (final (register_each between w1)) by by rewrite Hrun.
    apply register_each_keeps. apply Forall_forall. intros reg Hin. split.
    - by apply (proj1 (Forall_forall _ _) Hcs).
    - by apply (proj1 (Forall_forall _ _) Hne). }
  split; [exact Hq2|]. split; [exact Hout|]. split; [exact Hnd1|].
  split.
  { intros pre [k ->]. apply Forall_app in Hcs as [Hpre _].
    destruct (register_each_spec pre w1 Hpre Hn1 Hnd1) as (w' & -> & _ & _ & H).
    exact H. }
  split; [exact Hnd2|]. split; [exact Hgk|].
  split.
  { unfold w2. rewrite commands_registered. by apply keys_dict_set_present. }
  split.
  { intros n Hne. unfold w2. rewrite commands_registered.
    by apply dict_get_set_ne. }
  split; [exact Hb2|]. split; [by exists i|].
  split.
  { intros Hold. rewrite Hi. intros [n Hin]%elem_of_values.
    apply elem_of_app in Hin as [Hin|Hin].
    - apply Hold. apply elem_of_values. by exists n.
    - apply Hout. apply elem_of_values. exists n.
      eapply elem_of_sublist; [exact Hin|apply sublist_take]. }
  intros Hbb Hhooks Hfree.
  assert (Hload : all_commands (w_bot (final (load w2)))
                  = all_commands (w_bot w) ++ _commands (w_self w2)).
  { rewrite <- Hb2. apply load_prefix_table; try done.
    - by rewrite Hb2.
    - change (_pre_load_hooks (w_self w2)) with (_pre_load_hooks (w_self wb)).
      by rewrite Hgh.
    - by rewrite Hb2. }
  split; [exact Hload|]. rewrite Hload, dict_get_app_r; [exact Hq2|].
  apply Hfree. apply elem_of_keys. exists r2. by apply dict_get_Some_elem.
Qed.

Lemma C8_overwrite_by_name_witness :
  let w := fresh_world "p" (empty_host 5 true) in
  exists w1 wb w2,
    command (Some "ping") None [] (coroutine 1 "first") w = Ok 0 w1 /\
    register_each [(true, Some "pong", None, [], coroutine 2 "other")] w1
    = Ok tt wb /\
    command None None [] (coroutine 3 "ping") wb = Ok 2 w2 /\
    _commands (w_self wb) = [("ping", 0); ("pong", 1)] /\
    _commands (w_self w2) = [("ping", 2); ("pong", 1)] /\
    all_commands (w_bot (final (load w2))) = [("ping", 2); ("pong", 1)].
Proof.
  intros w.
  destruct (C8_overwrite_by_name w false false (Some "ping") None None None
              [] [] (coroutine 1 "first") (coroutine 3 "ping")
              [(true, Some "pong", None, [], coroutine 2 "other")])
    as (r1 & w1 & wb & r2 & w2 & H1 & Hb & H2 & H);
    [reflexivity|reflexivity|reflexivity|by repeat constructor|reflexivity
    |constructor|].
  vm_compute in H1. injection H1 as <- <-.
  vm_compute in Hb. injection Hb as <-.
  vm_compute in H2. injection H2 as <- <-.
  eexists _, _, _. split; [vm_compute; reflexivity|].
  split; [vm_compute; reflexivity|]. split; [vm_compute; reflexivity|].
  split; [reflexivity|]. split; [reflexivity|].
  destruct H as (_ & _ & _ & _ & _ & _ & _ & _ & _ & _ & _ & _ & _ & _ & Hload).
  destruct (Hload eq_refl (Forall_nil_2 _)) as (Hl & _).
  { intros n _. apply not_elem_of_nil. }
  etrans; [exact Hl|reflexivity].
Defined.

(** * What a [load] and an [unload] that return do to the host *)

Section Runs.
Context (p : Piece) (ns : list string).

Lemma runs_weaken {A} (m : M A) h h1 h2 (Q1 Q2 : Prop) :
  runs p ns m h h1 Q1 -> h1 = h2 -> (Q1 -> Q2) -> runs p ns m h h2 Q2.
Proof.
  intros Hm <- HQ w a w' Hs Hn Hb Hr.
  destruct (Hm w a w' Hs Hn Hb Hr) as [? ?]. auto.
Qed.

Lemma runs_bind {A B} (m : M A) (k : A -> M B) h h1 h2 Q1 Q2 :
  runs p ns m h h1 Q1 -> (forall a, runs p ns (k a) h1 h2 Q2) ->
  runs p ns (bind m k) h h2 (Q1 /\ Q2).
Proof.
  intros Hm Hk w b w' Hs Hn Hb (a & w1 & H1 & H2)%bind_ok.
  destruct (Hm w a w1 Hs Hn Hb H1) as [(Hs1 & Hn1 & Hb1) HQ1].
  destruct (Hk a w1 b w' Hs1 Hn1 Hb1 H2) as [? HQ2]. auto.
Qed.

Lemma runs_attr_bind {A B} (f : Piece -> A) (k : A -> M B) h h' Q :
  runs p ns (k (f p)) h h' Q -> runs p ns (bind (attr f) k) h h' Q.
Proof.
  intros Hk w b w' Hs Hn Hb Hr. unfold bind, attr in Hr. cbv beta iota in Hr.
  destruct Hs. by apply (Hk w b w').
Qed.

Lemma runs_slot_bind {A B} (f : Piece -> option (list A)) (k : list A -> M B) h h' Q :
  runs p ns (k (default [] (f p))) h h' Q -> runs p ns (bind (slot f) k) h h' Q.
Proof.
  intros Hk w b w' Hs Hn Hb Hr. unfold slot, bind, attr in Hr.
  cbv beta iota in Hr. destruct Hs.
  destruct (f (w_self w)) as [a|]; simpl in Hr; [|done]. by apply (Hk w b w').
Qed.

Lemma runs_gather hooks h : runs p ns (gather hooks) h h True.
Proof.
  intros w a w' Hs Hn Hb Hr. pose proof (gather_final hooks w) as Hf.
  rewrite Hr in Hf. simpl in Hf. by subst.
Qed.

Lemma runs_on_bot f h : runs p ns (on_bot f) h (f h) True.
Proof. intros w a w' Hs Hn Hb [= <- <-]. simpl. by subst. Qed.

Lemma runs_if_bot_base {A} (m1 m2 : M A) h h1 h2 Q1 Q2 :
  runs p ns m1 h h1 Q1 -> runs p ns m2 h h2 Q2 ->
  runs p ns (fun w => (if is_bot_base (w_bot w) then m1 else m2) w) h
    (if is_bot_base h then h1 else h2) (if is_bot_base h then Q1 else Q2).
Proof.
  intros H1 H2 w a w' Hs Hn Hb Hr. cbv beta in Hr. rewrite Hb in Hr.
  destruct (is_bot_base h); [by eapply H1|by eapply H2].
Qed.

Lemma runs_ret {A} (a : A) h : runs p ns (ret a) h h True.
Proof. by intros w a' w' Hs Hn Hb [= <- <-]. Qed.

Lemma runs_for_each {A} (l : list A) body (f : A -> Host -> Host) h :
  (forall x h, runs p ns (body x) h (f x h) True) ->
  runs p ns (for_each l body) h (foldl (fun h x => f x h) h l) True.
Proof.
  intros Hb. revert h. induction l as [|x l IH]; intros h; simpl.
  - apply runs_ret.
  - eapply runs_weaken; [eapply runs_bind; [apply Hb|intros _; apply IH]|done|done].
Qed.

Lemma runs_attach_loop k es h :
  (forall n r, (n, r) ∈ es -> ns !! r = Some n) ->
  runs p ns (for_each (values es) (attach k)) h (extend_table k es h)
    (NoDup (keys es) /\ forall n, n ∈ keys es -> n ∉ keys (host_table k h)).
Proof.
  intros Hlive w a w' Hs Hn Hb Hr. subst.
  pose proof (attach_loop_spec k es w Hlive) as H.
  rewrite Hr in H.
  destruct H as (Hnd & Hfr & Hb' & Hs' & _ & Hn'). unfold extend_table.
  split.
  - split; [exact Hs'|]. split; [exact Hn'|]. exact Hb'.
  - split; [exact Hnd|]. exact Hfr.
Qed.

Lemma runs_start h l : runs p ns (start l) h h True.
Proof.
  intros w a w' Hs Hn Hb Hr. unfold start, bind, deref_loop, update_loop in Hr.
  cbv beta iota in Hr.
  destruct (w_loops w !! l) as [x|] eqn:E; [|done].
  destruct (running x); [done|]. rewrite E in Hr. by simplify_eq.
Qed.

Lemma runs_cancel h l : runs p ns (cancel l) h h True.
Proof.
  intros w a w' Hs Hn Hb Hr. unfold cancel, bind, deref_loop, update_loop in Hr.
  cbv beta iota in Hr.
  destruct (w_loops w !! l) as [x|] eqn:E; [|done].
  destruct (running x); [rewrite E in Hr|unfold ret in Hr]; by simplify_eq.
Qed.

Lemma runs_loops (f : nat -> M unit) ls h :
  (forall h l, runs p ns (f l) h h True) -> runs p ns (for_each ls f) h h True.
Proof.
  intros Hf. induction ls as [|l ls IH]; simpl; [apply runs_ret|].
  eapply runs_weaken; [eapply runs_bind; [apply Hf|intros _; apply IH]|done|done].
Qed.
End Runs.

Lemma foldl_closed {A} (F : A -> Host -> Host) (G : list A -> Host -> Host) :
  (forall h, G [] h = h) ->
  (forall x xs h, G (x :: xs) h = G xs (F x h)) ->
  forall xs h, foldl (fun h x => F x h) h xs = G xs h.
Proof.
  intros H0 H1 xs. induction xs as [|x xs IH]; intros h; simpl; [by rewrite H0|].
  by rewrite IH, H1.
Qed.

(** Equality of two hosts built by the same setters, up to the
    associativity of the lists they hold. *)
Ltac host_eq :=
  unfold extend_events, extend_checks, extend_table; simpl;
  rewrite ?app_nil_r, <- ?app_assoc; reflexivity.

Lemma extend_checks_fold s cs h :
  foldl (fun h c => add_check s c h) h cs = extend_checks s cs h.
Proof.
  revert cs h. apply foldl_closed.
  - intros []; destruct s; host_eq.
  - intros x xs [] ; destruct s; host_eq.
Qed.

Lemma prune_checks_fold s cs h :
  foldl (fun h c => remove_check s c h) h cs = prune_checks s cs h.
Proof.
  revert cs h. apply foldl_closed.
  - intros []; by destruct s.
  - intros x xs []; by destruct s.
Qed.

Lemma extend_all_scopes_fold b1 b2 b3 cs h :
  foldl (fun h c => add_app_command_check c b1 b2 b3 h) h cs
  = all_scopes cs extend_checks b1 b2 b3 h.
Proof.
  revert cs h. apply foldl_closed.
  - intros []; destruct b1, b2, b3; host_eq.
  - intros x xs []; destruct b1, b2, b3; host_eq.
Qed.

Lemma prune_all_scopes_fold b1 b2 b3 cs h :
  foldl (fun h c => remove_app_command_check c b1 b2 b3 h) h cs
  = all_scopes cs prune_checks b1 b2 b3 h.
Proof.
  revert cs h. apply foldl_closed.
  - intros []; by destruct b1, b2, b3.
  - intros x xs []; by destruct b1, b2, b3.
Qed.

Lemma prune_table_fold k ns h :
  foldl (fun h n => remove_command k n h) h ns = prune_table k ns h.
Proof.
  revert ns h. apply foldl_closed.
  - intros []; by destruct k.
  - intros x xs []; by destruct k.
Qed.

Lemma extend_events_app ps qs h :
  extend_events qs (extend_events ps h) = extend_events (ps ++ qs) h.
Proof. destruct h. host_eq. Qed.

Lemma extend_events_nil h : extend_events [] h = h.
Proof. destruct h. host_eq. Qed.

Lemma prune_events_app ps qs h :
  prune_events qs (prune_events ps h) = prune_events (ps ++ qs) h.
Proof. destruct h. unfold prune_events. simpl. by rewrite foldl_app. Qed.

Section Stages.
Context (p : Piece) (ns : list string).

Lemma runs_to {A} (m : M A) h h1 h2 :
  runs p ns m h h1 True -> h1 = h2 -> runs p ns m h h2 True.
Proof. intros Hm <-. exact Hm. Qed.

Lemma runs_add_checks s cs h :
  runs p ns (for_each cs (fun check => on_bot (add_check s check))) h
    (extend_checks s cs h) True.
Proof.
  eapply runs_to; [apply (runs_for_each p ns cs _ (add_check s))|].
  - intros x h0. apply runs_on_bot.
  - apply extend_checks_fold.
Qed.

Lemma runs_remove_checks s cs h :
  runs p ns (for_each cs (fun check => on_bot (remove_check s check))) h
    (prune_checks s cs h) True.
Proof.
  eapply runs_to; [apply (runs_for_each p ns cs _ (remove_check s))|].
  - intros x h0. apply runs_on_bot.
  - apply prune_checks_fold.
Qed.

Lemma runs_add_app_checks b1 b2 b3 cs h :
  runs p ns
    (for_each cs (fun check => on_bot (add_app_command_check check b1 b2 b3)))
    h (all_scopes cs extend_checks b1 b2 b3 h) True.
Proof.
  eapply runs_to;
    [apply (runs_for_each p ns cs _ (fun c => add_app_command_check c b1 b2 b3))|].
  - intros x h0. apply runs_on_bot.
  - apply extend_all_scopes_fold.
Qed.

Lemma runs_remove_app_checks b1 b2 b3 cs h :
  runs p ns
    (for_each cs
       (fun check => on_bot (remove_app_command_check check b1 b2 b3)))
    h (all_scopes cs prune_checks b1 b2 b3 h) True.
Proof.
  eapply runs_to;
    [apply (runs_for_each p ns cs _
              (fun c => remove_app_command_check c b1 b2 b3))|].
  - intros x h0. apply runs_on_bot.
  - apply prune_all_scopes_fold.
Qed.

Lemma runs_remove_commands k names h :
  runs p ns (for_each names (fun command => on_bot (remove_command k command)))
    h (prune_table k names h) True.
Proof.
  eapply runs_to; [apply (runs_for_each p ns names _ (remove_command k))|].
  - intros x h0. apply runs_on_bot.
  - apply prune_table_fold.
Qed.

Lemma runs_add_listener listener event h :
  runs p ns (try_on_bot (add_listener listener event)) h
    (extend_events [(event, listener)] h) True.
Proof.
  intros w a w' Hs Hn Hb Hr. unfold try_on_bot, add_listener in Hr.
  destruct (cb_is_coro listener); [|done]. simplify_eq. done.
Qed.

Lemma runs_add_event_listeners event (listeners : list Callback) h :
  runs p ns
    (for_each listeners (fun listener =>
       try_on_bot (add_listener listener event)))
    h (extend_events ((fun l => (event, l)) <$> listeners) h) True.
Proof.
  revert h. induction listeners as [|l listeners IH]; intros h; simpl.
  { rewrite extend_events_nil. apply runs_ret. }
  eapply runs_weaken;
    [eapply runs_bind; [apply runs_add_listener|intros _; apply IH]| |done].
  by rewrite extend_events_app.
Qed.

Lemma runs_add_listeners (ls : dict (list Callback)) h :
  runs p ns
    (for_each ls (fun '(event, listeners) =>
       for_each listeners (fun listener =>
         try_on_bot (add_listener listener event))))
    h (extend_events (listener_pairs ls) h) True.
Proof.
  revert h. induction ls as [|[event listeners] ls IH]; intros h; simpl.
  { rewrite extend_events_nil. apply runs_ret. }
  eapply runs_weaken;
    [eapply runs_bind; [apply runs_add_event_listeners|intros _; apply IH]
    | |done].
  unfold listener_pairs. simpl. by rewrite extend_events_app.
Qed.

Lemma runs_remove_event_listeners event (listeners : list Callback) h :
  runs p ns
    (for_each listeners (fun listener =>
       on_bot (remove_listener listener event)))
    h (prune_events ((fun l => (event, l)) <$> listeners) h) True.
Proof.
  revert h. induction listeners as [|l listeners IH]; intros h; simpl.
  { destruct h. apply runs_ret. }
  eapply runs_weaken;
    [eapply runs_bind; [apply runs_on_bot|intros _; apply IH]| |done].
  by destruct h.
Qed.

Lemma runs_remove_listeners (ls : dict (list Callback)) h :
  runs p ns
    (for_each ls (fun '(event, listeners) =>
       for_each listeners (fun listener =>
         on_bot (remove_listener listener event))))
    h (prune_events (listener_pairs ls) h) True.
Proof.
  revert h. induction ls as [|[event listeners] ls IH]; intros h; simpl.
  { destruct h. apply runs_ret. }
  eapply runs_weaken;
    [eapply runs_bind; [apply runs_remove_event_listeners|intros _; apply IH]
    | |done].
  unfold listener_pairs. simpl. by rewrite prune_events_app.
Qed.
End Stages.

Ltac runs_stage :=
  first [ apply runs_attr_bind | apply runs_slot_bind ];
  first
    [ apply runs_gather
    | apply runs_add_checks | apply runs_add_app_checks
    | apply runs_remove_checks | apply runs_remove_app_checks
    | apply runs_remove_commands
    | apply runs_add_listeners | apply runs_remove_listeners
    | apply runs_loops; first [ apply runs_start | apply runs_cancel ] ].

Ltac runs_chain attach_tac :=
  repeat first
    [ apply runs_on_bot
    | apply runs_ret
    | solve [runs_stage]
    | solve [attach_tac]
    | eapply runs_bind;
      [first [ solve [runs_stage] | solve [attach_tac]
             | eapply runs_if_bot_base; [runs_chain attach_tac|apply runs_ret] ]
      |intros _] ].

Lemma load_ok w w' :
  (forall k n r, (n, r) ∈ registry k (w_self w) -> names w !! r = Some n) ->
  load w = Ok tt w' ->
  w_bot w' = loaded_host (w_self w) (w_bot w) /\
  forall k,
    (k = Prefix -> is_bot_base (w_bot w) = true) ->
    NoDup (keys (registry k (w_self w))) /\
    forall n, n ∈ keys (registry k (w_self w)) ->
              n ∉ keys (host_table k (w_bot w)).
Proof.
  intros Hlive Hload. unfold load in Hload.
  apply bind_ok in Hload as (a & w0 & H0 & Hrest).
  injection H0 as <- <-.
  set (p := set_bot (Some (host_id (w_bot w))) (w_self w)) in *.
  match type of Hrest with
  | ?m _ = _ =>
      assert (Hruns : exists Q, runs p (names w) m (w_bot w)
                 (loaded_host (w_self w) (w_bot w)) Q /\
               (Q -> forall k,
                  (k = Prefix -> is_bot_base (w_bot w) = true) ->
                  NoDup (keys (registry k (w_self w))) /\
                  forall n, n ∈ keys (registry k (w_self w)) ->
                            n ∉ keys (host_table k (w_bot w))))
  end.
  { eexists. split.
    - eapply runs_weaken; [| |intros HQ; exact HQ].
      + runs_chain ltac:(
          apply runs_attr_bind;
          first [ apply (runs_attach_loop _ _ Prefix); intros n r; apply (Hlive Prefix)
                | apply (runs_attach_loop _ _ Slash); intros n r; apply (Hlive Slash)
                | apply (runs_attach_loop _ _ User); intros n r; apply (Hlive User)
                | apply (runs_attach_loop _ _ Message); intros n r; apply (Hlive Message) ]).
      + transitivity (loaded_host p (w_bot w)); reflexivity.
    - intros HQ k Hk. destruct k; [specialize (Hk eq_refl)|..].
      + rewrite Hk in HQ. tauto.
      + destruct (is_bot_base (w_bot w)); cbn in HQ; tauto.
      + destruct (is_bot_base (w_bot w)); cbn in HQ; tauto.
      + destruct (is_bot_base (w_bot w)); cbn in HQ; tauto. }
  destruct Hruns as (Q & Hruns & HQ).
  destruct (Hruns (with_self p w) tt w' eq_refl eq_refl eq_refl Hrest)
    as [(_ & _ & Hb) HQ'].
  split; [exact Hb|by apply HQ].
Qed.

Lemma unload_ok w w' :
  unload w = Ok tt w' -> w_bot w' = unloaded_host (w_self w) (w_bot w).
Proof.
  intros Hun.
  assert (Hruns : exists Q, runs (w_self w) (names w) unload (w_bot w)
                    (unloaded_host (w_self w) (w_bot w)) Q).
  { eexists. unfold unload. eapply runs_weaken; [| |intros HQ; exact HQ].
    - runs_chain ltac:(fail).
    - reflexivity. }
  destruct Hruns as (Q & Hruns).
  by destruct (Hruns w tt w' eq_refl eq_refl eq_refl Hun) as [(_ & _ & Hb) _].
Qed.


(** * Load followed by unload *)

Lemma none_in_spec {A} `{EqDecision A} (cs l : list A) :
  none_in cs l = true <-> forall c, c ∈ cs -> c ∉ l.
Proof.
  unfold none_in. rewrite forallb_forall. split.
  - intros H c Hc. apply list_elem_of_In in Hc. apply H in Hc.
    by apply bool_decide_eq_true_1 in Hc.
  - intros H c Hc. apply list_elem_of_In in Hc. apply bool_decide_eq_true_2. auto.
Qed.

Lemma none_in_app {A} `{EqDecision A} (cs ds l : list A) :
  none_in (cs ++ ds) l = true -> none_in cs l = true /\ none_in ds l = true.
Proof.
  rewrite !none_in_spec. intros H.
  split; intros c Hc; apply H; apply elem_of_app; auto.
Qed.

Lemma remove_first_middle {A} `{EqDecision A} (x : A) l r :
  x ∉ l -> remove_first x (l ++ x :: r) = l ++ r.
Proof.
  induction l as [|y l IH]; simpl; intros Hx.
  - by rewrite decide_True.
  - apply not_elem_of_cons in Hx as [Hne Hx]. rewrite decide_False by done.
    by rewrite IH.
Qed.

Lemma remove_all_middle {A} `{EqDecision A} (xs l r : list A) :
  none_in xs l = true ->
  foldl (fun l c => remove_first c l) ((l ++ xs) ++ r) xs = l ++ r.
Proof.
  rewrite none_in_spec. revert l.
  induction xs as [|x xs IH]; intros l Hfr; simpl.
  - by rewrite app_nil_r.
  - rewrite <- app_assoc. simpl. rewrite remove_first_middle by (apply Hfr; left).
    rewrite app_assoc. apply IH. intros c Hc. apply Hfr. by right.
Qed.

Lemma remove_all_end {A} `{EqDecision A} (xs l : list A) :
  none_in xs l = true -> foldl (fun l c => remove_first c l) (l ++ xs) xs = l.
Proof.
  intros H. rewrite <- (app_nil_r (l ++ xs)), remove_all_middle by done.
  apply app_nil_r.
Qed.

Lemma dict_pop_middle {V} n (v : V) d r :
  n ∉ keys d -> dict_pop n (d ++ (n, v) :: r) = d ++ r.
Proof.
  unfold keys. induction d as [|[k' v'] d IH]; simpl; intros Hn.
  - by rewrite decide_True.
  - apply not_elem_of_cons in Hn as [Hne Hn]. rewrite decide_False by done.
    f_equal. by apply IH.
Qed.

Lemma pop_all_end {V} (es d : dict V) :
  (forall n, n ∈ keys es -> n ∉ keys d) ->
  foldl (fun d n => dict_pop n d) (d ++ es) (keys es) = d.
Proof.
  induction es as [|[n v] es IH]; intros Hfr; simpl.
  - by rewrite app_nil_r.
  - rewrite dict_pop_middle by (apply Hfr; left).
    apply IH. intros n' Hn'. apply Hfr. by right.
Qed.

Section Ensures.
Context {A B : Type} (Q : World -> Prop).


End Ensures.





Lemma ends_with_bind {A B} (P Q R : World -> Prop) (m : M A) (k : A -> M B) :
  preserves P m -> (forall w, P w -> R w) ->
  (forall a, ends_with P (k a) Q R) -> ends_with P (bind m k) Q R.
Proof.
  intros Hm HR Hk w HP. unfold bind.
  specialize (Hm w HP). destruct (m w) as [a w1|e1 w1]; simpl in Hm.
  - by apply Hk.
  - by apply HR.
Qed.

Lemma ends_with_on_bot (P Q R : World -> Prop) f :
  (forall w, P w -> Q (with_bot (f (w_bot w)) w)) -> ends_with P (on_bot f) Q R.
Proof. intros H w HP. by apply H. Qed.

(** Calls that leave the count of sync requests alone. *)
Ltac sync_leaf :=
  first
    [ apply preserves_on_bot; intros ? ?; simpl; assumption
    | apply preserves_assign_bot; intros ? ? ?; assumption
    | apply preserves_try_on_bot; intros ? ? ? Hf;
      first [ unfold add_listener in Hf; destruct (cb_is_coro _)
            | unfold add_command in Hf; destruct (dict_get _ _) ];
      simplify_eq; simpl; assumption
    | apply preserves_update; intros ? ? ? ?; assumption
    | apply preserves_update_loop; intros ? ? ? ?; assumption ].

Lemma ends_with_stuck {A B} (P Q R : World -> Prop) (m : M A) (k : A -> M B) :
  ends_with P m (fun _ => False) R -> ends_with P (bind m k) Q R.
Proof.
  intros Hm w HP. unfold bind. specialize (Hm w HP).
  by destruct (m w) as [a w1|e1 w1].
Qed.









Lemma round_trip_host p h :
  (forall k, (k = Prefix -> is_bot_base h = true) ->
     forall n, n ∈ keys (registry k p) -> n ∉ keys (host_table k h)) ->
  checks_fresh {| w_commands := []; w_loops := []; w_self := p; w_bot := h |}
  = true ->
  none_in (listener_pairs (_listeners p)) (extra_events h) = true ->
  unloaded_host p (loaded_host p h)
  = set_sync_requests (S (S (sync_requests h))) h.
Proof.
  intros Ht Hc Hl. unfold checks_fresh in Hc. cbn [w_self w_bot] in Hc.
  apply andb_prop in Hc as [Hc Hm]. apply andb_prop in Hc as [Hc Hu].
  apply andb_prop in Hc as [Hp Hs].
  apply none_in_app in Hm as [Ham Hm]. apply none_in_app in Hu as [Hau Hu].
  apply none_in_app in Hs as [Has Hs].
  pose proof (Ht Slash ltac:(done)) as Hts.
  pose proof (Ht User ltac:(done)) as Htu.
  pose proof (Ht Message ltac:(done)) as Htm.
  pose proof (Ht Prefix) as Htp. clear Ht.
  destruct h as [id bb T Ts Tu Tm C Co Cs Cu Cm E n].
  cbn [is_bot_base host_table all_commands all_slash_commands
       all_user_commands all_message_commands bot_checks bot_check_once
       bot_slash_command_checks bot_user_command_checks
       bot_message_command_checks extra_events registry] in *.
  destruct bb;
    [apply andb_prop in Hp as [Hp Hpo]; specialize (Htp ltac:(done))|];
    cbv [unloaded_host loaded_host all_scopes when extend_table extend_checks
         extend_events prune_table prune_checks prune_events
         _schedule_delayed_command_sync set_host_table set_host_checks
         set_extra_events set_sync_requests host_table host_checks host_id
         is_bot_base all_commands all_slash_commands all_user_commands
         all_message_commands bot_checks bot_check_once
         bot_slash_command_checks bot_user_command_checks
         bot_message_command_checks extra_events sync_requests];
    rewrite !remove_all_middle, !remove_all_end, !pop_all_end by done;
    reflexivity.
Qed.

Lemma entries_named_names w k n r :
  entries_named w = true -> (n, r) ∈ registry k (w_self w) ->
  names w !! r = Some n.
Proof.
  intros Hn Hin. apply names_lookup. by eapply entries_named_spec.
Qed.




(** * The checks of an entry, once more *)

Lemma host_table_loaded k p h :
  (k = Prefix -> is_bot_base h = true) ->
  host_table k (loaded_host p h) = host_table k h ++ registry k p.
Proof.
  intros Hk. destruct h as [id bb T Ts Tu Tm C Co Cs Cu Cm E n].
  destruct k; [specialize (Hk eq_refl); simpl in Hk; subst bb|destruct bb..];
    cbv [loaded_host all_scopes when extend_table extend_checks extend_events
         _schedule_delayed_command_sync set_host_table set_host_checks
         set_extra_events set_sync_requests host_table host_checks host_id
         is_bot_base all_commands all_slash_commands all_user_commands
         all_message_commands bot_checks bot_check_once
         bot_slash_command_checks bot_user_command_checks
         bot_message_command_checks extra_events sync_requests registry];
    reflexivity.
Qed.

(** C1: take a piece whose registered commands are distinct live objects,
    none of them on the host yet.  In the world [load] leaves behind,
    whether it returned or raised, every entry that is on the host holds the
    checks of its kind first and its own former checks after them; and when
    [load] returns, that is every entry of a kind the host takes. *)
Theorem C1_check_order w k n r c0 :
  entries_named w = true -> entries_distinct (w_self w) = true ->
  unattached w = true ->
  (n, r) ∈ registry k (w_self w) -> w_commands w !! r = Some c0 ->
  (r ∈ values (host_table k (w_bot (final (load w)))) ->
   exists c, w_commands (final (load w)) !! r = Some c /\
             checks c = kind_checks k (w_self w) ++ checks c0) /\
  (forall w', load w = Ok tt w' ->
     (k = Prefix -> is_bot_base (w_bot w) = true) ->
     exists c, w_commands w' !! r = Some c /\
               checks c = kind_checks k (w_self w) ++ checks c0).
Proof.
  intros Hn Hd Hu Hin Hc0.
  assert (Hat : r ∈ values (host_table k (w_bot (final (load w)))) ->
    exists c, w_commands (final (load w)) !! r = Some c /\
              checks c = kind_checks k (w_self w) ++ checks c0).
  { intros Hat.
    destruct (load_attach_inv w Hn Hd w (attach_inv_init w Hu)) as [_ He].
    destruct (He k n r c0 Hin Hc0) as [[Hun _]|[_ Hl]]; [done|].
    eexists. split; [exact Hl|]. apply prepended_checks. }
  split; [exact Hat|]. intros w' Hload Hk.
  destruct (load_ok w w' (fun k n r => entries_named_names w k n r Hn) Hload)
    as [Hb _].
  rewrite Hload in Hat. simpl in Hat. apply Hat.
  rewrite Hb, host_table_loaded by done. apply elem_of_values. exists n.
  apply elem_of_app. by right.
Qed.

Lemma C1_check_order_witness :
  let w := checked_world (empty_host 5 true) in
  exists c, w_commands (final (load w)) !! 0 = Some c /\
            checks c = [7; 8] ++ [1; 2].
Proof.
  intros w.
  refine (proj1 (C1_check_order w Prefix "ping" 0
           (construct Prefix AnyCommand
              {| cb_id := 1; cb_name := "callback"; cb_is_coro := true;
                 cb_checks := [1; 2]; cb_raises := None |} "ping" [])
           eq_refl eq_refl eq_refl _ eq_refl) _);
    vm_compute; apply list_elem_of_singleton; reflexivity.
Defined.

(** * Loops *)

Lemma register_loop_cases wait_until_ready (l : nat) x w :
  w_loops w !! l = Some x ->
  register_loop wait_until_ready l w
  = if wait_until_ready then
      match _before_loop x with
      | Some _ => Raise TypeError w
      | None =>
          Ok l (with_self (set_loops (_loops (w_self w) ++ [l]) (w_self w))
                  (with_loops
                     (<[l := set_before_loop
                               (Some (WaitUntilReady (piece_id (w_self w)))) x]>
                        (w_loops w)) w))
      end
    else Ok l (with_self (set_loops (_loops (w_self w) ++ [l]) (w_self w)) w).
Proof.
  intros Hl. unfold register_loop. destruct wait_until_ready; [|done].
  unfold bind, deref_loop. rewrite Hl. destruct (_before_loop x); [done|].
  unfold attr, update_loop. simpl. by rewrite Hl.
Qed.

(** X1: [register_loop(wait_until_ready = True)] applied to a loop that
    already has a before-loop callback raises [TypeError] and changes
    nothing, so the loop is not registered; without [wait_until_ready] the
    same loop is registered, last in [_loops], and no loop object is
    touched. *)
Theorem register_loop_guard (l : nat) x w :
  w_loops w !! l = Some x -> is_Some (_before_loop x) ->
  register_loop true l w = Raise TypeError w /\
  exists w',
    register_loop false l w = Ok l w' /\
    _loops (w_self w') = _loops (w_self w) ++ [l] /\
    w_loops w' = w_loops w.
Proof.
  intros Hl [b Hb]. split.
  - by rewrite (register_loop_cases true l x w Hl), Hb.
  - rewrite (register_loop_cases false l x w Hl). by eexists.
Qed.

Lemma register_loop_guard_witness :
  let w := with_loops [{| loop_coro := coroutine 1 "tick";
                          _before_loop := Some (UserBefore (coroutine 2 "wait"));
                          running := false;
                          cancel_requested := false |}]
             (fresh_world "p" (empty_host 5 false)) in
  register_loop true 0 w = Raise TypeError w.
Proof.
  intros w.
  exact (proj1 (register_loop_guard 0 _ w eq_refl (mk_is_Some _ _ eq_refl))).
Defined.

(** X2: registering the same loop twice with [wait_until_ready = True]: the
    first call installs the ready-guard and registers the loop, the second
    finds the guard the first one installed, raises [TypeError] and changes
    nothing. *)
Theorem register_loop_twice (l : nat) x w :
  w_loops w !! l = Some x -> _before_loop x = None ->
  exists w1,
    register_loop true l w = Ok l w1 /\
    register_loop true l w1 = Raise TypeError w1 /\
    _loops (w_self w1) = _loops (w_self w) ++ [l].
Proof.
  intros Hl Hb. eexists. split.
  { rewrite (register_loop_cases true l x w Hl), Hb. reflexivity. }
  split; [|done].
  erewrite register_loop_cases.
  2:{ simpl. apply list_lookup_insert_eq. by eapply lookup_lt_Some. }
  done.
Qed.

Lemma register_loop_twice_witness :
  let w := with_loops [{| loop_coro := coroutine 1 "tick";
                          _before_loop := None; running := false;
                          cancel_requested := false |}]
             (fresh_world "p" (empty_host 5 false)) in
  exists w1,
    register_loop true 0 w = Ok 0 w1 /\
    register_loop true 0 w1 = Raise TypeError w1 /\
    _loops (w_self w1) = [0].
Proof.
  intros w. exact (register_loop_twice 0 _ w eq_refl eq_refl).
Defined.

(** X3: [loop(wait_until_ready = b)(coro)] on a coroutine function always
    returns: it makes one new loop object, not running, that carries the
    ready-guard of this piece exactly when [b] is set, registers it last in
    [_loops] and returns it; the commands and the host are untouched. *)
Theorem loop_registers_new_loop wait_until_ready coro w :
  cb_is_coro coro = true ->
  exists w',
    loop wait_until_ready coro w = Ok (length (w_loops w)) w' /\
    _loops (w_self w') = _loops (w_self w) ++ [length (w_loops w)] /\
    w_loops w'
    = w_loops w ++
      [{| loop_coro := coro;
          _before_loop := if wait_until_ready
                          then Some (WaitUntilReady (piece_id (w_self w)))
                          else None;
          running := false;
          cancel_requested := false |}] /\
    w_commands w' = w_commands w /\ w_bot w' = w_bot w.
Proof.
  intros Hc. unfold loop, tasks_loop. rewrite Hc.
  unfold bind at 1. unfold new_loop at 1. cbv beta iota.
  set (x := {| loop_coro := coro; _before_loop := None; running := false;
               cancel_requested := false |}).
  set (w1 := with_loops (w_loops w ++ [x]) w).
  assert (Hl : w_loops w1 !! length (w_loops w) = Some x)
    by (by apply list_lookup_middle).
  unfold bind. rewrite (register_loop_cases _ _ x w1 Hl).
  destruct wait_until_ready; simpl; eexists; (split; [reflexivity|]); simpl;
    repeat split.
  rewrite insert_app_r_alt by done. by rewrite Nat.sub_diag.
Qed.

Lemma loop_registers_new_loop_witness :
  let w := fresh_world "p" (empty_host 5 false) in
  exists w',
    loop true (coroutine 1 "tick") w = Ok 0 w' /\ _loops (w_self w') = [0].
Proof.
  intros w.
  destruct (loop_registers_new_loop true (coroutine 1 "tick") w eq_refl)
    as (w' & H1 & H2 & _).
  exists w'. split; [exact H1|exact H2].
Defined.

(** * Loops and hooks around [load] and [unload] *)



(** X5: if some pre-unload hook fails, [unload] raises the failure of a
    failing hook and changes nothing at all: the host keeps every command,
    check and listener of the piece, and no loop is cancelled. *)
Theorem preunload_failure_aborts_unload w :
  Exists (fun hook => is_Some (call_hook hook)) (_pre_unload_hooks (w_self w)) ->
  exists hook e,
    hook ∈ _pre_unload_hooks (w_self w) /\ call_hook hook = Some e /\
    unload w = Raise e w.
Proof.
  intros HE. destruct (gather_fails _ w HE) as (hook & e & Hin & Hc & Hg).
  exists hook, e. split; [done|]. split; [done|].
  unfold unload. unfold bind at 1. unfold bind at 1. unfold attr at 1.
  cbv beta iota. by rewrite Hg.
Qed.

Lemma preunload_failure_aborts_unload_witness :
  let w := final ((unload_hook false (failing_hook 9 "close" (UserError 3)) ;;
                   load) (busy_world (empty_host 5 false))) in
  all_slash_commands (w_bot w) = [("ping", 0)] /\
  unload w = Raise (UserError 3) w.
Proof.
  intros w. split; [reflexivity|].
  destruct (preunload_failure_aborts_unload w) as (hook & e & Hin & Hc & Hu).
  { vm_compute. apply Exists_cons_hd. by eexists. }
  rewrite Hu. f_equal.
  vm_compute in Hin. apply list_elem_of_singleton in Hin. subst hook.
  vm_compute in Hc. by injection Hc as <-.
Defined.

(** * The command sync *)

(** X6: [load] and [unload] each ask the host for a command sync exactly
    once when they return, as their last step, and not at all when they
    raise, whatever they had attached or removed by then. *)
Theorem sync_scheduled_once w :
  match load w with
  | Ok _ w' => sync_requests (w_bot w') = S (sync_requests (w_bot w))
  | Raise _ w' => sync_requests (w_bot w') = sync_requests (w_bot w)
  end /\
  match unload w with
  | Ok _ w' => sync_requests (w_bot w') = S (sync_requests (w_bot w))
  | Raise _ w' => sync_requests (w_bot w') = sync_requests (w_bot w)
  end.
Proof.
  set (n := sync_requests (w_bot w)).
  set (P := fun w' : World => sync_requests (w_bot w') = n).
  set (Q := fun w' : World => sync_requests (w_bot w') = S n).
  split.
  - cut (ends_with P load Q P); [intros H; by apply (H w)|].
    unfold load.
    repeat (apply ends_with_bind;
            [preserves_with sync_leaf|intros ? HP; exact HP|intros _]).
    apply ends_with_on_bot. intros w' HP. unfold Q, P in *. simpl. by rewrite HP.
  - cut (ends_with P unload Q P); [intros H; by apply (H w)|].
    unfold unload.
    repeat (apply ends_with_bind;
            [preserves_with sync_leaf|intros ? HP; exact HP|intros _]).
    apply ends_with_on_bot. intros w' HP. unfold Q, P in *. simpl. by rewrite HP.
Qed.

(** * The unassigned slot *)

Lemma ends_with_unset_slot {A B} (P Q : World -> Prop)
    (f : Piece -> option A) (k : A -> M B) :
  (forall w, P w -> f (w_self w) = None) ->
  ends_with P (bind (slot f) k) Q P.
Proof.
  intros Hf w HP. unfold slot, bind, attr. cbv beta iota.
  by rewrite (Hf w HP).
Qed.

Lemma ends_with_bot_base {A} (P Q R : World -> Prop) (m1 m2 : M A) :
  (forall w, P w -> is_bot_base (w_bot w) = true) ->
  ends_with P m1 Q R ->
  ends_with P (fun w => (if is_bot_base (w_bot w) then m1 else m2) w) Q R.
Proof. intros Hbb Hm w HP. rewrite (Hbb w HP). by apply Hm. Qed.

Lemma load_reads_once_slot w :
  is_bot_base (w_bot w) = true ->
  _global_command_once_checks (w_self w) = None ->
  exists e w', load w = Raise e w'.
Proof.
  intros Hbb Hslot.
  set (P := fun w' : World =>
    is_bot_base (w_bot w') = true /\
    _global_command_once_checks (w_self w') = None).
  assert (Hl : ends_with P load (fun _ => False) P).
  { unfold load.
    do 2 (apply ends_with_bind;
          [preserves_with sync_leaf|intros ? H; exact H|intros _]).
    apply ends_with_stuck. apply ends_with_bot_base; [by intros ? [? _]|].
    do 2 (apply ends_with_bind;
          [preserves_with sync_leaf|intros ? H; exact H|intros _]).
    apply ends_with_unset_slot. by intros ? [_ ?]. }
  specialize (Hl w (conj Hbb Hslot)).
  destruct (load w) as [a w'|e w']; [done|]. by exists e, w'.
Qed.

(** X7: on a [BotBase] host, while the slot [_global_command_once_checks]
    is unassigned (as [__init__] leaves it), neither [load] nor [unload]
    ever returns: each raises, and by then has touched no application
    command table, no application check list, no listener and no loop of
    the host or the piece. *)
Theorem never_returns_without_once_slot w :
  is_bot_base (w_bot w) = true ->
  _global_command_once_checks (w_self w) = None ->
  (exists e w', load w = Raise e w' /\
                beyond_once_slot w' = beyond_once_slot w) /\
  (exists e w', unload w = Raise e w' /\
                beyond_once_slot w' = beyond_once_slot w).
Proof.
  intros Hbb Hslot.
  set (P := fun w' : World =>
    is_bot_base (w_bot w') = true /\
    _global_command_once_checks (w_self w') = None /\
    beyond_once_slot w' = beyond_once_slot w).
  assert (HP : P w) by done.
  assert (Hl : ends_with P load (fun _ => False) P).
  { unfold load.
    do 2 (apply ends_with_bind;
          [preserves_with sync_leaf|intros ? H; exact H|intros _]).
    apply ends_with_stuck. apply ends_with_bot_base; [by intros ? [? _]|].
    do 2 (apply ends_with_bind;
          [preserves_with sync_leaf|intros ? H; exact H|intros _]).
    apply ends_with_unset_slot. by intros ? (_ & ? & _). }
  assert (Hu : ends_with P unload (fun _ => False) P).
  { unfold unload.
    apply ends_with_bind;
      [preserves_with sync_leaf|intros ? H; exact H|intros _].
    apply ends_with_stuck. apply ends_with_bot_base; [by intros ? [? _]|].
    do 2 (apply ends_with_bind;
          [preserves_with sync_leaf|intros ? H; exact H|intros _]).
    apply ends_with_unset_slot. by intros ? (_ & ? & _). }
  specialize (Hl w HP). specialize (Hu w HP).
  split.
  - destruct (load w) as [a w'|e w']; [done|]. exists e, w'. split; [done|].
    by destruct Hl as (_ & _ & ?).
  - destruct (unload w) as [a w'|e w']; [done|]. exists e, w'. split; [done|].
    by destruct Hu as (_ & _ & ?).
Qed.

Lemma never_returns_without_once_slot_witness :
  let w := checked_world (empty_host 5 true) in
  exists e w', load w = Raise e w' /\ all_slash_commands (w_bot w') = [].
Proof.
  intros w.
  destruct (never_returns_without_once_slot w eq_refl eq_refl)
    as [(e & w' & Hl & Hb) _].
  exists e, w'. split; [exact Hl|].
  by injection Hb as -> _.
Defined.

(** * What a [load] that returns has attached *)

(** X8: when [load] returns for a piece whose entries carry the names they
    are filed under, the host holds exactly what it held before followed by
    what the piece brought, in the piece's order: each command table is the
    old table followed by the registry of its kind; the slash, user and
    message check lists are the old list, then the global application
    command checks, then the global checks of the kind; the listeners are
    the old ones followed by the piece's, event by event.  On a [BotBase]
    host the prefix check lists grow the same way; on any other host the
    prefix table and the prefix check lists are untouched. *)
Theorem load_appends w w' :
  entries_named w = true -> load w = Ok tt w' ->
  (forall k, (k = Prefix -> is_bot_base (w_bot w) = true) ->
     host_table k (w_bot w') = host_table k (w_bot w) ++ registry k (w_self w)) /\
  bot_slash_command_checks (w_bot w')
  = bot_slash_command_checks (w_bot w)
    ++ _global_application_command_checks (w_self w)
    ++ _global_slash_command_checks (w_self w) /\
  bot_user_command_checks (w_bot w')
  = bot_user_command_checks (w_bot w)
    ++ _global_application_command_checks (w_self w)
    ++ _global_user_command_checks (w_self w) /\
  bot_message_command_checks (w_bot w')
  = bot_message_command_checks (w_bot w)
    ++ _global_application_command_checks (w_self w)
    ++ _global_message_command_checks (w_self w) /\
  extra_events (w_bot w')
  = extra_events (w_bot w) ++ listener_pairs (_listeners (w_self w)) /\
  (if is_bot_base (w_bot w) then
     bot_checks (w_bot w')
     = bot_checks (w_bot w) ++ _global_command_checks (w_self w) /\
     Some (bot_check_once (w_bot w'))
     = (fun once => bot_check_once (w_bot w) ++ once)
         <$> _global_command_once_checks (w_self w)
   else
     all_commands (w_bot w') = all_commands (w_bot w) /\
     bot_checks (w_bot w') = bot_checks (w_bot w) /\
     bot_check_once (w_bot w') = bot_check_once (w_bot w)).
Proof.
  intros Hn Hload.
  destruct (load_ok w w' (fun k n r => entries_named_names w k n r Hn) Hload)
    as [Hb _].
  split. { intros k Hk. rewrite Hb. by apply host_table_loaded. }
  assert (Honce : is_bot_base (w_bot w) = true ->
                  is_Some (_global_command_once_checks (w_self w))).
  { intros Hbb.
    destruct (_global_command_once_checks (w_self w)) eqn:E; [by eexists|].
    destruct (load_reads_once_slot w Hbb E) as (e & w1 & Hl).
    congruence. }
  rewrite Hb. clear Hb Hload.
  destruct (w_bot w) as [id bb T Ts Tu Tm C Co Cs Cu Cm E n].
  destruct bb;
    cbv [loaded_host all_scopes when extend_table extend_checks extend_events
         _schedule_delayed_command_sync set_host_table set_host_checks
         set_extra_events set_sync_requests host_table host_checks host_id
         is_bot_base all_commands all_slash_commands all_user_commands
         all_message_commands bot_checks bot_check_once
         bot_slash_command_checks bot_user_command_checks
         bot_message_command_checks extra_events sync_requests] in *;
    rewrite <- ?app_assoc; repeat split.
  destruct (Honce eq_refl) as [once ->]. reflexivity.
Qed.

Lemma load_appends_witness :
  let w := busy_world (empty_host 5 false) in
  exists w', load w = Ok tt w' /\
    host_table Slash (w_bot w') = [("ping", 0)] /\
    bot_slash_command_checks (w_bot w') = [10; 11; 10] /\
    bot_user_command_checks (w_bot w') = [10].
Proof.
  intros w. destruct (load w) as [[] w'|e w'] eqn:Hload; [|by vm_compute in Hload].
  exists w'. split; [done|].
  destruct (load_appends w w' eq_refl Hload) as (Ht & Hs & Hu & _).
  split; [exact (Ht Slash ltac:(done))|].
  split; [exact Hs|exact Hu].
Defined.


(** * Unloading what was never loaded *)

Lemma remove_first_absent {A} `{EqDecision A} (x : A) l :
  x ∉ l -> remove_first x l = l.
Proof.
  induction l as [|y l IH]; simpl; intros Hx; [done|].
  apply not_elem_of_cons in Hx as [Hne Hx]. rewrite decide_False by done.
  by rewrite IH.
Qed.

Lemma remove_all_absent {A} `{EqDecision A} (xs l : list A) :
  none_in xs l = true -> foldl (fun l c => remove_first c l) l xs = l.
Proof.
  rewrite none_in_spec. induction xs as [|x xs IH]; intros Hfr; simpl; [done|].
  rewrite remove_first_absent by (apply Hfr; left).
  apply IH. intros c Hc. apply Hfr. by right.
Qed.

Lemma dict_pop_absent {V} n (d : dict V) : n ∉ keys d -> dict_pop n d = d.
Proof.
  unfold keys. induction d as [|[k' v'] d IH]; simpl; intros Hn; [done|].
  apply not_elem_of_cons in Hn as [Hne Hn]. rewrite decide_False by done.
  f_equal. by apply IH.
Qed.

Lemma pop_all_absent {V} (ns : list string) (d : dict V) :
  none_in ns (keys d) = true -> foldl (fun d n => dict_pop n d) d ns = d.
Proof.
  rewrite none_in_spec. induction ns as [|n ns IH]; intros Hfr; simpl; [done|].
  rewrite dict_pop_absent by (apply Hfr; left).
  apply IH. intros c Hc. apply Hfr. by right.
Qed.

(** X9: [unload] on a host that holds nothing of the piece (no command
    under one of its names, none of its global checks, none of its
    listeners) removes nothing: when it returns, the host differs only by
    the one sync request, and the command objects and the piece are as
    before. *)
Theorem unload_before_load w w' :
  names_free w = true -> checks_fresh w = true -> listeners_fresh w = true ->
  unload w = Ok tt w' ->
  w_bot w' = set_sync_requests (S (sync_requests (w_bot w))) (w_bot w) /\
  w_commands w' = w_commands w /\ w_self w' = w_self w.
Proof.
  intros Hn Hc Hl Hun.
  assert (Hs : w_self w' = w_self w).
  { rewrite <- (unload_self w). by rewrite Hun. }
  assert (Hcmd : w_commands w' = w_commands w).
  { change (w_commands (final (Ok tt w')) = w_commands w). rewrite <- Hun.
    by_preservation (fun w0 => w_commands w0 = w_commands w).
    unfold unload. preserves_with sync_leaf. }
  split; [|done]. rewrite (unload_ok w w' Hun). clear Hun Hs Hcmd.
  unfold names_free, all_kinds in Hn. simpl in Hn.
  apply andb_prop in Hn as [Hnp Hn]. apply andb_prop in Hn as [Hns Hn].
  apply andb_prop in Hn as [Hnu Hn]. apply andb_prop in Hn as [Hnm _].
  unfold checks_fresh in Hc. unfold listeners_fresh in Hl.
  apply andb_prop in Hc as [Hc Hm]. apply andb_prop in Hc as [Hc Hu].
  apply andb_prop in Hc as [Hp Hs].
  apply none_in_app in Hm as [Ham Hm]. apply none_in_app in Hu as [Hau Hu].
  apply none_in_app in Hs as [Has Hs].
  destruct (w_bot w) as [id bb T Ts Tu Tm C Co Cs Cu Cm E n].
  cbn [is_bot_base host_table all_commands all_slash_commands
       all_user_commands all_message_commands bot_checks bot_check_once
       bot_slash_command_checks bot_user_command_checks
       bot_message_command_checks extra_events registry] in *.
  destruct bb; [apply andb_prop in Hp as [Hp Hpo]|];
    cbv [unloaded_host all_scopes when prune_table prune_checks prune_events
         _schedule_delayed_command_sync set_host_table set_host_checks
         set_extra_events set_sync_requests host_table host_checks host_id
         is_bot_base all_commands all_slash_commands all_user_commands
         all_message_commands bot_checks bot_check_once
         bot_slash_command_checks bot_user_command_checks
         bot_message_command_checks extra_events sync_requests];
    rewrite ?(remove_all_absent _ C), ?(remove_all_absent _ Co),
      !(remove_all_absent _ Cs), !(remove_all_absent _ Cu),
      !(remove_all_absent _ Cm), (remove_all_absent _ E),
      ?(pop_all_absent _ T), (pop_all_absent _ Ts), (pop_all_absent _ Tu),
      (pop_all_absent _ Tm) by done;
    reflexivity.
Qed.

Lemma unload_before_load_witness :
  let w := busy_world (empty_host 5 false) in
  exists w', unload w = Ok tt w' /\
             w_bot w' = set_sync_requests 1 (empty_host 5 false).
Proof.
  intros w. destruct (unload w) as [[] w'|e w'] eqn:Hun; [|by vm_compute in Hun].
  exists w'. split; [done|].
  exact (proj1 (unload_before_load w w' eq_refl eq_refl eq_refl Hun)).
Defined.

(** * The registries stay well-formed *)

Lemma unattached_intro w :
  (forall k r, r ∈ values (registry k (w_self w)) ->
     r ∉ values (host_table k (w_bot w))) ->
  unattached w = true.
Proof.
  intros H. unfold unattached. apply forallb_forall. intros k _.
  apply forallb_forall. intros r Hin%list_elem_of_In.
  apply bool_decide_eq_true_2. by apply H.
Qed.

Lemma values_dict_set_split {V} k (v : V) d :
  exists vs, values (dict_set k v d) ≡ₚ v :: vs /\ vs ⊆+ values d.
Proof.
  unfold values. induction d as [|[k' v'] d (vs & Hp & Hs)]; simpl.
  - exists []. done.
  - destruct (decide (k = k')) as [->|Hne]; simpl.
    + exists d.*2. split; [done|]. by apply submseteq_cons.
    + exists (v' :: vs). split.
      * rewrite Hp. apply Permutation_swap.
      * by apply submseteq_skip.
Qed.

Lemma NoDup_of_submseteq {V} (l k : list V) : l ⊆+ k -> NoDup k -> NoDup l.
Proof.
  intros (k' & Hp)%submseteq_Permutation Hnd. rewrite Hp in Hnd.
  by apply NoDup_app in Hnd as [? _].
Qed.

Lemma NoDup_values_dict_set {V} k (v : V) d l1 l2 :
  NoDup (l1 ++ values d ++ l2) -> v ∉ l1 ++ values d ++ l2 ->
  NoDup (l1 ++ values (dict_set k v d) ++ l2).
Proof.
  intros Hnd Hv. destruct (values_dict_set_split k v d) as (vs & Hp & Hs).
  rewrite Hp. simpl.
  rewrite <- Permutation_middle. apply NoDup_cons. split.
  - intros Hin. apply Hv. rewrite !elem_of_app in *.
    destruct Hin as [?|[Hin|?]]; auto. right. left.
    by eapply elem_of_submseteq.
  - eapply NoDup_of_submseteq; [|exact Hnd].
    apply submseteq_app; [done|]. by apply submseteq_app.
Qed.

Lemma registered_well_formed k c w :
  entries_named w = true -> entries_distinct (w_self w) = true ->
  entries_named (registered k c w) = true /\
  entries_distinct (w_self (registered k c w)) = true.
Proof.
  intros Hn Hd.
  assert (Hlt : forall k' n r, (n, r) ∈ registry k' (w_self w) ->
                               r < length (w_commands w)).
  { intros k' n r Hin.
    destruct (entries_named_spec w k' n r Hn Hin) as (c' & Hc' & _).
    by eapply lookup_lt_Some. }
  split.
  - apply entries_named_intro. intros k' n r. unfold registered. simpl.
    rewrite registry_set_registry. intros Hin.
    assert (Hold : (n, r) ∈ registry k' (w_self w) ->
              exists c0, (w_commands w ++ [c]) !! r = Some c0 /\ cmd_name c0 = n).
    { intros Hin'.
      destruct (entries_named_spec w k' n r Hn Hin') as (c' & Hc' & Hn').
      exists c'. split; [|done]. by apply lookup_app_l_Some. }
    destruct (decide (k = k')) as [<-|Hne]; [|by apply Hold].
    apply elem_of_dict_set in Hin as [[-> ->]|Hin]; [|by apply Hold].
    exists c. split; [by apply list_lookup_middle|done].
  - apply bool_decide_eq_true_1 in Hd. apply bool_decide_eq_true_2.
    unfold registered. simpl.
    assert (Hfresh : length (w_commands w)
                     ∉ all_kinds ≫= fun k => values (registry k (w_self w))).
    { intros Hin. apply list_elem_of_bind in Hin as (k' & Hin & _).
      apply elem_of_values in Hin as (n & Hin). apply Hlt in Hin. lia. }
    revert Hd Hfresh. unfold all_kinds. simpl.
    destruct k; simpl.
    + apply (NoDup_values_dict_set _ _ _ []).
    + apply NoDup_values_dict_set.
    + rewrite !(app_assoc (values (_commands (w_self w)))).
      apply NoDup_values_dict_set.
    + rewrite !(app_assoc (values (_commands (w_self w)))).
      rewrite !(app_assoc (values (_commands (w_self w)) ++ _)).
      apply NoDup_values_dict_set.
Qed.

(** X10: the five command registrars keep the registries well-formed,
    whether they return or raise: afterwards every entry is still a live
    command object filed under its own name, and no command object is held
    twice, also when the new command replaces one of the same name. *)
Theorem registrars_keep_registries_well_formed
    w name cls kwargs attributes callback :
  entries_named w = true -> entries_distinct (w_self w) = true ->
  Forall (fun w' => entries_named w' = true /\
                    entries_distinct (w_self w') = true)
    [final (command name cls kwargs callback w);
     final (group name cls kwargs callback w);
     final (slash_command name attributes callback w);
     final (user_command name attributes callback w);
     final (message_command name attributes callback w)].
Proof.
  intros Hn Hd.
  unfold command, group, slash_command, user_command, message_command.
  destruct (cb_is_coro callback);
    [|by repeat (apply Forall_cons; split; [done|])].
  repeat (apply Forall_cons; split;
    [first [ exact (registered_well_formed Prefix _ w Hn Hd)
           | exact (registered_well_formed Slash _ w Hn Hd)
           | exact (registered_well_formed User _ w Hn Hd)
           | exact (registered_well_formed Message _ w Hn Hd) ]|]).
  apply Forall_nil_2.
Qed.

Lemma registrars_keep_registries_well_formed_witness :
  Forall (fun w' => entries_named w' = true /\
                    entries_distinct (w_self w') = true)
    [final (command (Some "ping") None [] (coroutine 7 "ping")
              (busy_world (empty_host 5 false)));
     final (group (Some "ping") None [] (coroutine 7 "ping")
              (busy_world (empty_host 5 false)));
     final (slash_command (Some "ping") [] (coroutine 7 "ping")
              (busy_world (empty_host 5 false)));
     final (user_command (Some "ping") [] (coroutine 7 "ping")
              (busy_world (empty_host 5 false)));
     final (message_command (Some "ping") [] (coroutine 7 "ping")
              (busy_world (empty_host 5 false)))].
Proof.
  exact (registrars_keep_registries_well_formed
           (busy_world (empty_host 5 false)) (Some "ping") None [] []
           (coroutine 7 "ping") eq_refl eq_refl).
Defined.


(** * Loading again *)

(** Calls that leave the names of the command objects and the kind of the
    host alone. *)
Ltac names_leaf :=
  first
    [ sync_leaf
    | apply preserves_update; intros w0 c0 HP Hc; unfold names in *; simpl;
      rewrite list_fmap_insert; simpl; rewrite list_insert_id; [exact HP|];
      rewrite list_lookup_fmap, Hc; reflexivity ].

Lemma load_names w : names (final (load w)) = names w.
Proof.
  by_preservation (fun w0 => names w0 = names w).
  unfold load. preserves_with names_leaf.
Qed.

Lemma unload_commands w : w_commands (final (unload w)) = w_commands w.
Proof.
  by_preservation (fun w0 => w_commands w0 = w_commands w).
  unfold unload. preserves_with sync_leaf.
Qed.

Lemma load_is_bot_base w :
  is_bot_base (w_bot (final (load w))) = is_bot_base (w_bot w).
Proof.
  by_preservation (fun w0 => is_bot_base (w_bot w0) = is_bot_base (w_bot w)).
  unfold load. preserves_with sync_leaf.
Qed.

Lemma unload_is_bot_base w :
  is_bot_base (w_bot (final (unload w))) = is_bot_base (w_bot w).
Proof.
  by_preservation (fun w0 => is_bot_base (w_bot w0) = is_bot_base (w_bot w)).
  unfold unload. preserves_with sync_leaf.
Qed.

Lemma attached_checks w w' k n r c0 :
  entries_named w = true -> entries_distinct (w_self w) = true ->
  unattached w = true ->
  (n, r) ∈ registry k (w_self w) -> w_commands w !! r = Some c0 ->
  load w = Ok tt w' -> (k = Prefix -> is_bot_base (w_bot w) = true) ->
  exists c, w_commands w' !! r = Some c /\
            checks c = kind_checks k (w_self w) ++ checks c0.
Proof.
  intros Hn Hd Hu Hin Hc0 Hload Hk.
  destruct (load_attach_inv w Hn Hd w (attach_inv_init w Hu)) as [_ He].
  rewrite Hload in He. simpl in He.
  destruct (He k n r c0 Hin Hc0) as [[Hun _]|[_ Hl]].
  - exfalso. apply Hun.
    destruct (load_ok w w' (fun k n r => entries_named_names w k n r Hn) Hload)
      as [Hb _].
    rewrite Hb, host_table_loaded by done. apply elem_of_values. exists n.
    apply elem_of_app. by right.
  - eexists. split; [exact Hl|]. apply prepended_checks.
Qed.

Lemma round_trip_tables w w1 w2 :
  entries_named w = true ->
  checks_fresh w = true -> listeners_fresh w = true ->
  load w = Ok tt w1 -> unload w1 = Ok tt w2 ->
  forall k, host_table k (w_bot w2) = host_table k (w_bot w).
Proof.
  intros Hnamed Hc Hl Hload Hunload.
  destruct (load_ok w w1 (fun k n r => entries_named_names w k n r Hnamed) Hload)
    as [Hb1 Hfresh].
  assert (Hs1 : w_self w1 = set_bot (Some (host_id (w_bot w))) (w_self w)).
  { rewrite <- (load_self w). by rewrite Hload. }
  pose proof (unload_ok w1 w2 Hunload) as Hb2.
  rewrite Hb1, Hs1 in Hb2.
  change (unloaded_host (set_bot _ (w_self w)))
    with (unloaded_host (w_self w)) in Hb2.
  rewrite round_trip_host in Hb2; [| |exact Hc|exact Hl].
  2:{ intros k Hk. by apply Hfresh. }
  rewrite Hb2. by intros [].
Qed.

(** X11: [unload] does not take back the checks that [load] prepended to a
    command, so loading a second time prepends them again: after [load],
    [unload], [load] an attached entry holds the checks of its kind twice,
    followed by the checks it had before the first [load]. *)
Theorem reload_prepends_again w w1 w2 w3 k n r c0 :
  entries_named w = true -> entries_distinct (w_self w) = true ->
  unattached w = true -> checks_fresh w = true -> listeners_fresh w = true ->
  load w = Ok tt w1 -> unload w1 = Ok tt w2 -> load w2 = Ok tt w3 ->
  (k = Prefix -> is_bot_base (w_bot w) = true) ->
  (n, r) ∈ registry k (w_self w) -> w_commands w !! r = Some c0 ->
  exists c, w_commands w3 !! r = Some c /\
            checks c = kind_checks k (w_self w) ++ kind_checks k (w_self w)
                       ++ checks c0.
Proof.
  intros Hn Hd Hu Hc Hl Hload Hunload Hreload Hk Hin Hc0.
  destruct (attached_checks w w1 k n r c0 Hn Hd Hu Hin Hc0 Hload Hk)
    as (c1 & Hc1 & Hchecks1).
  pose proof (round_trip_tables w w1 w2 Hn Hc Hl Hload Hunload) as Ht.
  assert (Hs1 : w_self w1 = set_bot (Some (host_id (w_bot w))) (w_self w)).
  { rewrite <- (load_self w). by rewrite Hload. }
  assert (Hs2 : w_self w2 = w_self w1).
  { rewrite <- (unload_self w1). by rewrite Hunload. }
  assert (Hcmd2 : w_commands w2 = w_commands w1).
  { rewrite <- (unload_commands w1). by rewrite Hunload. }
  assert (Hreg : forall k', registry k' (w_self w2) = registry k' (w_self w)).
  { intros k'. rewrite Hs2, Hs1. by destruct k'. }
  assert (Hkc : kind_checks k (w_self w2) = kind_checks k (w_self w)).
  { rewrite Hs2, Hs1. by destruct k. }
  assert (Hn2 : entries_named w2 = true).
  { apply entries_named_intro. intros k' n' r' Hin'. rewrite Hreg in Hin'.
    apply names_lookup. unfold names. rewrite Hcmd2.
    change (names w1 !! r' = Some n').
    replace w1 with (final (load w)) by by rewrite Hload.
    rewrite load_names. by eapply entries_named_names. }
  assert (Hd2 : entries_distinct (w_self w2) = true).
  { rewrite Hs2, Hs1. exact Hd. }
  assert (Hu2 : unattached w2 = true).
  { apply unattached_intro. intros k' r'. rewrite Hreg, Ht.
    by apply unattached_spec. }
  assert (Hbb2 : is_bot_base (w_bot w2) = is_bot_base (w_bot w)).
  { replace w2 with (final (unload w1)) by by rewrite Hunload.
    rewrite unload_is_bot_base.
    replace w1 with (final (load w)) by by rewrite Hload.
    apply load_is_bot_base. }
  destruct (attached_checks w2 w3 k n r c1 Hn2 Hd2 Hu2
              ltac:(by rewrite Hreg) ltac:(by rewrite Hcmd2)
              Hreload ltac:(by rewrite Hbb2))
    as (c & Hc3 & Hchecks3).
  exists c. split; [done|]. by rewrite Hchecks3, Hkc, Hchecks1.
Qed.

Lemma reload_prepends_again_witness :
  let w := checked_world (empty_host 5 false) in
  exists w1 w2 w3 c,
    load w = Ok tt w1 /\ unload w1 = Ok tt w2 /\ load w2 = Ok tt w3 /\
    w_commands w3 !! 1 = Some c /\ checks c = [9; 9; 3].
Proof.
  intros w.
  destruct (load w) as [[] w1|e w1] eqn:H1; [|by vm_compute in H1].
  destruct (unload w1) as [[] w2|e w2] eqn:H2.
  2:{ revert H2. vm_compute in H1. injection H1 as <-. vm_compute. discriminate. }
  destruct (load w2) as [[] w3|e w3] eqn:H3.
  2:{ revert H3. revert H2. vm_compute in H1. injection H1 as <-.
      vm_compute. intros [= <-]. vm_compute. discriminate. }
  destruct (reload_prepends_again w w1 w2 w3 Slash "pong" 1
              (construct Slash Invokable
                 {| cb_id := 2; cb_name := "other"; cb_is_coro := true;
                    cb_checks := [3]; cb_raises := None |} "pong" [])
              eq_refl eq_refl eq_refl eq_refl eq_refl H1 H2 H3)
    as (c & Hc & Hchecks); [done| |reflexivity|].
  { vm_compute. apply list_elem_of_singleton. reflexivity. }
  exists w1, w2, w3, c. repeat split; try done.
Defined.

(** * Attributes and listeners *)

Lemma dict_get_setdefault {V} k k' (v : V) d :
  dict_get k' (dict_setdefault k v d)
  = if decide (k = k') then Some (default v (dict_get k d)) else dict_get k' d.
Proof.
  unfold dict_setdefault. destruct (dict_get k d) as [x|] eqn:E; simpl.
  - destruct (decide (k = k')) as [<-|]; [done|done].
  - destruct (decide (k = k')) as [<-|Hne].
    + apply dict_get_set_eq.
    + by apply dict_get_set_ne.
Qed.

Lemma dict_get_merge {V} k (attrs kwargs : dict V) :
  NoDup (keys kwargs) ->
  dict_get k (dict_merge attrs kwargs)
  = match dict_get k kwargs with
    | Some v => Some v
    | None => dict_get k attrs
    end.
Proof.
  unfold dict_merge, keys. revert attrs.
  induction kwargs as [|[k' v'] kwargs IH]; intros attrs Hnd; [done|].
  simpl in *. apply NoDup_cons in Hnd as [Hk' Hnd]. rewrite IH by done.
  destruct (decide (k = k')) as [->|Hne].
  - apply dict_get_None in Hk'. rewrite Hk'. apply dict_get_set_eq.
  - destruct (dict_get k kwargs); [done|]. by apply dict_get_set_ne.
Qed.

Lemma dict_get_filter {V} k (P : string * V -> Prop)
    `{forall x, Decision (P x)} (d : list (string * V)) :
  NoDup (keys d) ->
  dict_get k (filter P d)
  = match dict_get k d with
    | Some v => if decide (P (k, v)) then Some v else None
    | None => None
    end.
Proof.
  unfold keys. induction d as [|[k' v'] d IH]; intros Hnd; [done|].
  rewrite filter_cons. rewrite fmap_cons in Hnd.
  apply NoDup_cons in Hnd as [Hk' Hnd]. specialize (IH Hnd).
  cbn [dict_get]. destruct (decide (k = k')) as [->|Hne].
  - destruct (decide (P (k', v'))) as [HP|HP].
    + cbn [dict_get]. by rewrite decide_True.
    + rewrite IH. simpl in Hk'. apply dict_get_None in Hk'. by rewrite Hk'.
  - destruct (decide (P (k', v'))) as [HP|HP]; [|done].
    cbn [dict_get]. by rewrite decide_False.
Qed.

Lemma NoDup_keys_filter {V} (P : string * V -> Prop) `{forall x, Decision (P x)}
    (d : dict V) :
  NoDup (keys d) -> NoDup (keys (filter P d)).
Proof.
  unfold keys. intros Hnd. eapply NoDup_of_submseteq; [|exact Hnd].
  apply sublist_submseteq, fmap_sublist. apply sublist_filter.
Qed.

(** X12: the attributes [_apply_attrs] returns: under every key but
    ["extras"], the keyword argument when one is given and is not [None],
    otherwise the value of [attrs]; a keyword argument that is [None] never
    hides or removes the value [attrs] holds. *)
Theorem apply_attrs_merges_kwargs self attrs kwargs key :
  NoDup (keys kwargs) -> key <> "extras" ->
  match _apply_attrs self attrs kwargs with
  | inr new_attrs =>
      dict_get key new_attrs
      = match dict_get key kwargs with
        | Some v => if is_none v then dict_get key attrs else Some v
        | None => dict_get key attrs
        end
  | inl _ => True
  end.
Proof.
  intros Hnd Hkey. unfold _apply_attrs.
  set (merged := dict_merge attrs _).
  destruct (dict_get "extras" (dict_setdefault "extras" (VDict []) merged))
    as [[| | | |e]|]; try done.
  rewrite dict_get_set_ne by done. rewrite dict_get_setdefault.
  rewrite decide_False by done. unfold merged.
  rewrite dict_get_merge by (by apply NoDup_keys_filter).
  pose proof (dict_get_filter key (fun kv => is_none kv.2 = false) kwargs Hnd)
    as Hf.
  simpl in Hf. unfold dict in *. rewrite Hf. clear Hf.
  destruct (dict_get key kwargs) as [v|]; [|done]. simpl.
  destruct (is_none v); by destruct (decide _).
Qed.

Lemma apply_attrs_merges_kwargs_witness :
  match _apply_attrs (init 1 "p" []) [("help", VStr "old"); ("brief", VStr "b")]
          [("help", VStr "new"); ("brief", VNone)] with
  | inr new_attrs => dict_get "brief" new_attrs = Some (VStr "b")
  | inl _ => True
  end.
Proof.
  apply (apply_attrs_merges_kwargs (init 1 "p" [])
           [("help", VStr "old"); ("brief", VStr "b")]
           [("help", VStr "new"); ("brief", VNone)] "brief").
  - apply (bool_decide_unpack _). by vm_compute.
  - done.
Defined.

Lemma dict_get_filter_absent {V} k (P : string * V -> Prop)
    `{forall x, Decision (P x)} (d : list (string * V)) :
  dict_get k d = None -> dict_get k (filter P d) = None.
Proof.
  rewrite !dict_get_None. unfold keys. intros Hk Hin. apply Hk.
  apply list_elem_of_fmap in Hin as (kv & -> & Hin).
  apply list_elem_of_filter in Hin as [_ Hin].
  apply list_elem_of_fmap. by exists kv.
Qed.

Lemma dict_get_merge_absent {V} k (attrs kwargs : dict V) :
  dict_get k kwargs = None ->
  dict_get k (dict_merge attrs kwargs) = dict_get k attrs.
Proof.
  unfold dict_merge. revert attrs.
  induction kwargs as [|[k' v'] kwargs IH]; intros attrs Hk; [done|].
  simpl in *. destruct (decide (k = k')) as [->|Hne]; [done|].
  rewrite IH by done. by apply dict_get_set_ne.
Qed.

(** X13: [_apply_attrs] stamps without overriding.  When no [extras]
    keyword is given and [attrs] holds a dict under ["extras"] (or nothing),
    the result holds under ["extras"] that dict with ["piece"] and
    ["metadata"] set to this piece's unless they were present, in which
    case the values in use are kept, and with every other key as it was.
    When [attrs] holds something else under ["extras"] ([None], say), the
    call raises [AttributeError]. *)
Theorem apply_attrs_keeps_extras self attrs kwargs :
  dict_get "extras" kwargs = None ->
  match extras_of attrs with
  | Some e =>
      exists new_attrs e',
        _apply_attrs self attrs kwargs = inr new_attrs /\
        dict_get "extras" new_attrs = Some (VDict e') /\
        dict_get "piece" e'
        = Some (default (VPiece (piece_id self)) (dict_get "piece" e)) /\
        dict_get "metadata" e'
        = Some (default (VMetadata (piece_id self)) (dict_get "metadata" e)) /\
        forall k, k <> "piece" -> k <> "metadata" ->
                  dict_get k e' = dict_get k e
  | None => _apply_attrs self attrs kwargs = inl AttributeError
  end.
Proof.
  intros Hkw. unfold _apply_attrs, extras_of.
  set (merged := dict_merge attrs _).
  assert (Hm : dict_get "extras" merged = dict_get "extras" attrs).
  { unfold merged. apply dict_get_merge_absent.
    by apply dict_get_filter_absent. }
  rewrite dict_get_setdefault, decide_True by done. rewrite Hm.
  destruct (dict_get "extras" attrs) as [[| | | |e]|]; simpl; try done.
  - eexists _, _. split; [done|]. split; [apply dict_get_set_eq|].
    rewrite !dict_get_setdefault.
    rewrite (decide_False (P := "metadata" = "piece")) by done.
    rewrite !decide_True by done.
    rewrite (decide_False (P := "piece" = "metadata")) by done.
    split; [done|]. split; [done|]. intros k Hp Hm'.
    rewrite !dict_get_setdefault.
    rewrite !decide_False by done. done.
  - eexists _, _. split; [done|]. split; [apply dict_get_set_eq|].
    rewrite !dict_get_setdefault.
    rewrite (decide_False (P := "metadata" = "piece")) by done.
    rewrite !decide_True by done.
    rewrite (decide_False (P := "piece" = "metadata")) by done.
    split; [done|]. split; [done|]. intros k Hp Hm'.
    rewrite !dict_get_setdefault.
    rewrite !decide_False by done. done.
Qed.

Lemma apply_attrs_keeps_extras_witness :
  exists new_attrs e',
    _apply_attrs (init 1 "p" []) [("extras", VDict [("piece", VPiece 4)])] []
    = inr new_attrs /\
    dict_get "extras" new_attrs = Some (VDict e') /\
    dict_get "piece" e' = Some (VPiece 4) /\
    dict_get "metadata" e' = Some (VMetadata 1).
Proof.
  destruct (apply_attrs_keeps_extras (init 1 "p" [])
              [("extras", VDict [("piece", VPiece 4)])] [] eq_refl)
    as (new_attrs & e' & H1 & H2 & H3 & H4 & _).
  by exists new_attrs, e'.
Defined.

(** X14: [get_parent_piece] on an entry constructed from attributes that
    went through [_apply_attrs]: the stamping piece when the extras held no
    ["piece"] before; the value already in use when there was one, and
    [LookupError] when that value is falsy. *)
Theorem parent_piece_of_stamped_entry self attrs kwargs new_attrs e
    k cls callback name obj w :
  dict_get "extras" kwargs = None ->
  extras_of attrs = Some e ->
  _apply_attrs self attrs kwargs = inr new_attrs ->
  w_commands w !! obj = Some (construct k cls callback name new_attrs) ->
  get_parent_piece obj w
  = match dict_get "piece" e with
    | None => Ok (VPiece (piece_id self)) w
    | Some plugin => if truthy plugin then Ok plugin w else Raise LookupError w
    end.
Proof.
  intros Hkw He Hnew Hobj.
  unfold get_parent_piece, bind, deref. rewrite Hobj.
  unfold _apply_attrs in Hnew. unfold extras_of in He.
  set (merged := dict_merge attrs _) in Hnew.
  assert (Hm : dict_get "extras" merged = dict_get "extras" attrs).
  { unfold merged. apply dict_get_merge_absent.
    by apply dict_get_filter_absent. }
  rewrite dict_get_setdefault, decide_True in Hnew by done.
  rewrite Hm in Hnew.
  assert (Hx : exists x, new_attrs
    = dict_set "extras"
        (VDict (dict_setdefault "metadata" (VMetadata (piece_id self))
                 (dict_setdefault "piece" (VPiece (piece_id self)) e)))
        x).
  { destruct (dict_get "extras" attrs) as [[| | | |e0]|];
      simpl in Hnew; simplify_eq; by eexists. }
  destruct Hx as [x ->]. unfold construct. cbn [cmd_extras].
  rewrite dict_get_set_eq, !dict_get_setdefault.
  rewrite (decide_False (P := "metadata" = "piece")) by done.
  rewrite decide_True by done.
  destruct (dict_get "piece" e) as [v|]; simpl; [by destruct (truthy v)|done].
Qed.

Lemma parent_piece_of_stamped_entry_witness :
  exists new_attrs,
    _apply_attrs (init 1 "p" []) [] [("help", VStr "h")] = inr new_attrs /\
    let w :=
      with_commands
        [construct Prefix AnyCommand (coroutine 1 "ping") "ping" new_attrs]
        (fresh_world "p" (empty_host 5 false)) in
    get_parent_piece 0 w = Ok (VPiece 1) w.
Proof.
  eexists. split; [reflexivity|]. intros w.
  exact (parent_piece_of_stamped_entry (init 1 "p" []) [] [("help", VStr "h")]
           _ [] Prefix AnyCommand (coroutine 1 "ping") "ping" 0 w
           eq_refl eq_refl eq_refl eq_refl).
Defined.

Lemma set_listeners_twice l1 l2 p :
  set_listeners l2 (set_listeners l1 p) = set_listeners l2 p.
Proof. by destruct p. Qed.

Lemma set_listeners_same p : set_listeners (_listeners p) p = p.
Proof. by destruct p. Qed.

Lemma dict_get_setdefault_append key callback d k :
  dict_get k (setdefault_append key callback d)
  = if decide (key = k)
    then Some (default [] (dict_get key d) ++ [callback])
    else dict_get k d.
Proof.
  unfold setdefault_append.
  destruct (decide (key = k)) as [<-|Hne].
  - destruct (dict_get key d); apply dict_get_set_eq.
  - destruct (dict_get key d); by apply dict_get_set_ne.
Qed.

(** X15: [add_listeners] always returns and changes nothing but
    [_listeners]: under every key the list is the former one followed by the
    callbacks filed under that key (the event when one is given, the
    callback's own name otherwise) in the order they were passed; a key gets
    no empty list. *)
Theorem add_listeners_files_in_order callbacks event w :
  exists w',
    add_listeners callbacks event w = Ok tt w' /\
    w_bot w' = w_bot w /\ w_commands w' = w_commands w /\
    w_loops w' = w_loops w /\
    w_self w' = set_listeners (_listeners (w_self w')) (w_self w) /\
    forall k,
      dict_get k (_listeners (w_self w'))
      = match dict_get k (_listeners (w_self w)),
              filter (fun cb => listener_key event cb = k) callbacks with
        | Some l, added => Some (l ++ added)
        | None, [] => None
        | None, added => Some added
        end.
Proof.
  unfold add_listeners. revert w.
  induction callbacks as [|cb cbs IH]; intros w.
  - exists w. split; [done|]. do 3 (split; [done|]).
    split; [by rewrite set_listeners_same|].
    intros k. rewrite filter_nil.
    destruct (dict_get k _); [by rewrite app_nil_r|done].
  - cbn [for_each]. unfold bind at 1, assign at 1.
    match goal with |- context [for_each cbs ?b ?w1] =>
      destruct (IH w1) as (w' & Hrun & Hb & Hc & Hl & Hs & Hk) end.
    exists w'. split; [exact Hrun|]. do 3 (split; [done|]).
    split.
    { rewrite Hs at 1. destruct w. cbn. by rewrite set_listeners_twice. }
    intros k. rewrite Hk, filter_cons. clear.
    destruct w as [cs ls p b]. destruct p.
    simpl.
    rewrite dict_get_setdefault_append. fold (listener_key event cb).
    destruct (decide (listener_key event cb = k)) as [Heq|Hne]; [|done].
    rewrite Heq. destruct (dict_get k _); cbn; [by rewrite <- app_assoc|done].
Qed.

(** * Registration is local *)

Lemma add_listeners_outside cbs event w :
  w_bot (final (add_listeners cbs event w)) = w_bot w /\
  w_commands (final (add_listeners cbs event w)) = w_commands w.
Proof.
  unfold add_listeners. revert w.
  induction cbs as [|cb cbs IH]; intros w; [done|].
  cbn [for_each]. rewrite final_bind. unfold assign at 1. cbv beta iota.
  match goal with |- context [final (for_each _ _ ?w1)] =>
    destruct (IH w1) as [Hb Hc] end.
  split; [exact Hb|exact Hc].
Qed.

Lemma listener_outside event callback w :
  w_bot (final (listener event callback w)) = w_bot w /\
  w_commands (final (listener event callback w)) = w_commands w.
Proof.
  unfold listener. rewrite final_bind.
  pose proof (add_listeners_outside [callback] event w) as H.
  by destruct (add_listeners [callback] event w).
Qed.

Lemma register_loop_outside wait_until_ready l w :
  w_bot (final (register_loop wait_until_ready l w)) = w_bot w /\
  w_commands (final (register_loop wait_until_ready l w)) = w_commands w.
Proof.
  unfold register_loop, bind, deref_loop, update_loop, attr, assign, ret.
  destruct wait_until_ready; [|done].
  destruct (w_loops w !! l) as [x|] eqn:E; [|done].
  destruct (_before_loop x); simpl; [done|]. by rewrite E.
Qed.

Lemma loop_outside wait_until_ready callback w :
  w_bot (final (loop wait_until_ready callback w)) = w_bot w /\
  w_commands (final (loop wait_until_ready callback w)) = w_commands w.
Proof.
  unfold loop, tasks_loop. destruct (cb_is_coro callback); [|done].
  unfold register_loop, bind, new_loop, deref_loop, update_loop, attr,
    assign, ret.
  destruct wait_until_ready; simpl; [|done].
  rewrite list_lookup_middle by done. simpl.
  by rewrite list_lookup_middle by done.
Qed.

(** X16: registration is local to the piece.  No registrar (commands,
    checks, listeners, loops, hooks), whether it returns or raises, touches
    the host; and the registrars of checks, listeners, loops and hooks,
    which construct no command, leave every command object as it is. *)
Theorem registration_leaves_host
    w name cls kwargs attributes callback predicate event callbacks
    post wait_until_ready l :
  Forall (fun w' => w_bot w' = w_bot w)
    [final (command name cls kwargs callback w);
     final (group name cls kwargs callback w);
     final (slash_command name attributes callback w);
     final (user_command name attributes callback w);
     final (message_command name attributes callback w);
     final (command_check predicate w);
     final (slash_command_check predicate w);
     final (message_command_check predicate w);
     final (user_command_check predicate w);
     final (global_command_check predicate w);
     final (global_command_check_once predicate w);
     final (global_application_command_check predicate w);
     final (global_slash_command_check predicate w);
     final (global_message_command_check predicate w);
     final (global_user_command_check predicate w);
     final (add_listeners callbacks event w);
     final (listener event callback w);
     final (register_loop wait_until_ready l w);
     final (loop wait_until_ready callback w);
     final (load_hook post callback w);
     final (unload_hook post callback w)] /\
  Forall (fun w' => w_commands w' = w_commands w)
    [final (command_check predicate w);
     final (slash_command_check predicate w);
     final (message_command_check predicate w);
     final (user_command_check predicate w);
     final (global_command_check predicate w);
     final (global_command_check_once predicate w);
     final (global_application_command_check predicate w);
     final (global_slash_command_check predicate w);
     final (global_message_command_check predicate w);
     final (global_user_command_check predicate w);
     final (add_listeners callbacks event w);
     final (listener event callback w);
     final (register_loop wait_until_ready l w);
     final (loop wait_until_ready callback w);
     final (load_hook post callback w);
     final (unload_hook post callback w)].
Proof.
  assert (Honce : w_bot (final (global_command_check_once predicate w))
                  = w_bot w /\
                  w_commands (final (global_command_check_once predicate w))
                  = w_commands w).
  { unfold global_command_check_once, slot, bind, attr.
    by destruct (_global_command_once_checks (w_self w)). }
  split.
  - repeat (apply Forall_cons; split); [..|apply Forall_nil_2].
    1-5: unfold command, group, slash_command, user_command, message_command;
         by destruct (cb_is_coro callback).
    1-5: done.
    + apply Honce.
    + done.
    + done.
    + done.
    + done.
    + apply add_listeners_outside.
    + apply listener_outside.
    + apply register_loop_outside.
    + apply loop_outside.
    + by destruct post.
    + by destruct post.
  - repeat (apply Forall_cons; split); [..|apply Forall_nil_2].
    1-5: done.
    + apply Honce.
    + done.
    + done.
    + done.
    + done.
    + apply add_listeners_outside.
    + apply listener_outside.
    + apply register_loop_outside.
    + apply loop_outside.
    + by destruct post.
    + by destruct post.
Qed.
